(** * PageRank: the transition model and the two estimators of [pagerank.py]

    A shallow embedding of [transition_model], [sample_pagerank],
    [iterate_pagerank] and [crawl], followed by the properties the
    specification states about them and by further properties read off the
    code.  [main] only prints and is left out.

    - Python dictionaries are association lists in insertion order
      ([dict]); a Python set of page names is a list without duplicates.
    - Python exceptions are the [Raise] branch of [result].
    - Python numbers are abstracted by the record [Arith]; it has two
      instances: [exact], rational arithmetic (every operation returns the
      reduced fraction), and [binary64], the IEEE 754 doubles Python
      computes with.  General laws are proved over [exact] (or over every
      [Arith] when no algebra is needed); concrete runs are evaluated over
      both.
    - The calls into Python's [random] module are the two operations of the
      record [Random], which thread an explicit generator state.
    - The unbounded [while True] loop of [iterate_pagerank] takes fuel:
      [None] means that the loop is still running when the fuel is spent.

    The file first gives the run-time model and the three functions, then
    the closed forms and the notions of the specification the statements
    use, then the proofs: dictionaries, the transition model, the
    iterative estimator, the sampling estimator, the inputs the
    specification wants rejected, and the probability mass of the
    results; then the crawler, further facts on the three functions, and
    the convergence of the iteration.

    - In [crawl] the file system is an input: the outcome of
      [os.listdir], and for every entry the outcome of reading the file;
      [re.findall] with the anchor pattern is an abstract function of the
      contents. *)

From Stdlib Require Import ZArith QArith Qabs List String Bool Lia Lqa.
From Stdlib Require Import PrimFloat Uint63.
Import ListNotations.

Set Warnings "-inexact-float".
Local Open Scope string_scope.
Local Open Scope list_scope.

(* ================================================================== *)
(** ** Python run-time values *)

(** The built-in exceptions the modelled code can raise. *)
Inductive exn : Type :=
| IndexError
| KeyError
| ZeroDivisionError
| ValueError
| OSError.

Inductive result (T : Type) : Type :=
| Ok (v : T)
| Raise (e : exn).

Arguments Ok {T} v.
Arguments Raise {T} e.

Definition bind {T U : Type} (c : result T) (k : T -> result U) : result U :=
  match c with
  | Ok v => k v
  | Raise e => Raise e
  end.

Notation "x <- c ;; k" := (bind c (fun x => k))
  (at level 61, c at next level, right associativity).
Notation "' pat <- c ;; k" := (bind c (fun x => match x with pat => k end))
  (at level 61, pat pattern, c at next level, right associativity).

(** [for x in xs: body], the body updating the loop state or raising. *)
Fixpoint for_each {X S : Type} (xs : list X) (body : X -> S -> result S)
  (s : S) : result S :=
  match xs with
  | [] => Ok s
  | x :: rest => s' <- body x s ;; for_each rest body s'
  end.

(** [for i in range(k): body]. *)
Fixpoint for_range {S : Type} (k : nat) (body : S -> result S) (s : S)
  : result S :=
  match k with
  | O => Ok s
  | S k' => s' <- body s ;; for_range k' body s'
  end.

(** A dictionary keyed by page names, in insertion order. *)
Definition dict (V : Type) : Type := list (string * V).

Definition keys {V : Type} (d : dict V) : list string := map fst d.
Definition values {V : Type} (d : dict V) : list V := map snd d.

Fixpoint lookup {V : Type} (d : dict V) (k : string) : option V :=
  match d with
  | [] => None
  | (k', v) :: rest => if String.eqb k k' then Some v else lookup rest k
  end.

(** [d[k]] *)
Definition getitem {V : Type} (d : dict V) (k : string) : result V :=
  match lookup d k with
  | Some v => Ok v
  | None => Raise KeyError
  end.

(** [d[k] = v]: an existing key keeps its position, a new one goes last. *)
Fixpoint setitem {V : Type} (d : dict V) (k : string) (v : V) : dict V :=
  match d with
  | [] => [(k, v)]
  | (k', v') :: rest =>
      if String.eqb k k' then (k', v) :: rest else (k', v') :: setitem rest k v
  end.

(** [x in s] for a set [s] of page names. *)
Definition contains (s : list string) (x : string) : bool :=
  existsb (String.eqb x) s.

Fixpoint distinct (l : list string) : bool :=
  match l with
  | [] => true
  | x :: rest => negb (contains rest x) && distinct rest
  end.

(** A corpus maps every page to the set of pages it links to. *)
Definition corpus_t : Type := dict (list string).

(** The graph invariant of the data model: page names are unique, every
    link set is duplicate free and only names pages of the corpus. *)
Definition valid_graph (corpus : corpus_t) : bool :=
  distinct (keys corpus)
  && forallb (fun links => distinct links
                           && forallb (contains (keys corpus)) links)
             (values corpus).

(* ================================================================== *)
(** ** Numbers *)

Record Arith : Type := {
  num : Type;
  of_int : Z -> num;              (* an [int] used in float arithmetic *)
  add : num -> num -> num;
  sub : num -> num -> num;
  mul : num -> num -> num;
  div : num -> num -> num;        (* divisor known to be non-zero *)
  absn : num -> num;              (* [abs] *)
  geb : num -> num -> bool        (* [>=] *)
}.

(** Rational arithmetic; every result is the reduced fraction, so equal
    numbers are equal terms. *)
Definition exact : Arith := {|
  num := Q;
  of_int := inject_Z;
  add := fun x y => Qred (x + y);
  sub := fun x y => Qred (x - y);
  mul := fun x y => Qred (x * y);
  div := fun x y => Qred (x / y);
  absn := fun x => Qred (Qabs x);
  geb := fun x y => Qle_bool y x
|}.

(** [float(z)] for an integer below [2^63] in magnitude; beyond that range
    the conversion of Python (rounding, then [OverflowError]) is not
    modelled, and statements over every [Arith] bound the integers they
    divide by. *)
Definition float_of_Z (z : Z) : float :=
  match z with
  | Zneg p => PrimFloat.opp (PrimFloat.of_uint63 (Uint63.of_Z (Zpos p)))
  | _ => PrimFloat.of_uint63 (Uint63.of_Z z)
  end.

(** IEEE 754 binary64, the arithmetic of Python's [float]. *)
Definition binary64 : Arith := {|
  num := float;
  of_int := float_of_Z;
  add := PrimFloat.add;
  sub := PrimFloat.sub;
  mul := PrimFloat.mul;
  div := PrimFloat.div;
  absn := PrimFloat.abs;
  geb := fun x y => PrimFloat.leb y x
|}.

(** [x / k] for an integer [k] (a length or a count): Python's true
    division raises on a zero divisor.  The divisor is taken below [2^63]
    in magnitude, see [float_of_Z]. *)
Definition true_div (A : Arith) (x : num A) (k : Z) : result (num A) :=
  if Z.eqb k 0 then Raise ZeroDivisionError else Ok (div A x (of_int A k)).

(** The literal [0.001]: the number nearest to 1/1000. *)
Definition threshold (A : Arith) : num A :=
  div A (of_int A 1) (of_int A 1000).

(** [len(s)] as a Python [int]. *)
Definition len {X : Type} (l : list X) : Z := Z.of_nat (List.length l).

(* ================================================================== *)
(** ** The [random] module *)

(** [choice g seq] is [random.choice(seq)] and [choices g population
    weights] is [random.choices(population, weights)[0]], both run from the
    generator state [g]. *)
Record Random (A : Arith) : Type := {
  gen : Type;
  choice : gen -> list string -> result (string * gen);
  choices : gen -> list string -> list (num A) -> result (string * gen)
}.

Arguments gen {A} r.
Arguments choice {A} r g seq.
Arguments choices {A} r g population weights.

(** [random.choice] raises [IndexError] on an empty sequence, whatever the
    generator. *)
Definition random_choice {A : Arith} (R : Random A) (g : gen R)
  (seq : list string) : result (string * gen R) :=
  match seq with
  | [] => Raise IndexError
  | _ :: _ => choice R g seq
  end.

(** A scripted generator, to run the estimators on concrete inputs: the
    state is the list of the indices still to be drawn (reduced modulo the
    length of the sequence drawn from, 0 once the script is used up); the
    weights play no part.  The general statements hold for every [Random],
    this one included. *)
Definition scripted_draw (g : list nat) (seq : list string)
  : result (string * list nat) :=
  match nth_error seq (Nat.modulo (hd O g) (List.length seq)) with
  | Some x => Ok (x, tl g)
  | None => Raise IndexError
  end.

Definition scripted (A : Arith) : Random A := {|
  gen := list nat;
  choice := scripted_draw;
  choices := fun g population _ => scripted_draw g population
|}.

(* ================================================================== *)
(** ** The program *)

Section Program.

Variable A : Arith.

(** [transition_model(corpus, page, damping_factor)] *)
Definition transition_model (corpus : corpus_t) (page : string)
  (damping_factor : num A) : result (dict (num A)) :=
  let all_pages := len (keys corpus) in
  let linked_pages :=
    match lookup corpus page with
    | Some links => len links
    | None => 0%Z
    end in
  probability_distribution <-
    for_each (keys corpus)
      (fun current_page pd =>
         v <- true_div A (sub A (of_int A 1) damping_factor) all_pages ;;
         Ok (setitem pd current_page v))
      [] ;;
  if Z.eqb linked_pages 0 then Ok probability_distribution
  else
    links <- getitem corpus page ;;
    for_each links
      (fun current_page pd =>
         old <- getitem pd current_page ;;
         inc <- true_div A damping_factor linked_pages ;;
         Ok (setitem pd current_page (add A old inc)))
      probability_distribution.

(** One pass of the sampling loop of [sample_pagerank] (lines 93-96): the
    loop state is the accumulator, the current sample and the generator. *)
Definition sample_step (R : Random A) (corpus : corpus_t)
  (damping_factor : num A) (n : Z)
  (st : dict (num A) * string * gen R)
  : result (dict (num A) * string * gen R) :=
  let '(pagerank, current_sample, g) := st in
  current_distribution <-
    transition_model corpus current_sample damping_factor ;;
  pagerank' <-
    for_each (keys pagerank)
      (fun page pr =>
         old <- getitem pr page ;;
         p <- getitem current_distribution page ;;
         q <- true_div A p n ;;
         Ok (setitem pr page (add A old q)))
      pagerank ;;
  ' (next, g') <-
    choices R g (keys current_distribution) (values current_distribution) ;;
  Ok (pagerank', next, g').

(** [sample_pagerank(corpus, damping_factor, n)], run from generator state
    [g]. *)
Definition sample_pagerank (R : Random A) (g : gen R) (corpus : corpus_t)
  (damping_factor : num A) (n : Z) : result (dict (num A)) :=
  pagerank <-
    for_each (keys corpus)
      (fun page pr => Ok (setitem pr page (of_int A 0)))
      [] ;;
  ' (current_sample, g0) <- random_choice R g (keys corpus) ;;
  ' (pagerank', _, _) <-
    for_range (Z.to_nat (n - 1))
      (sample_step R corpus damping_factor n)
      (pagerank, current_sample, g0) ;;
  Ok pagerank'.

(** The initial ranks of [iterate_pagerank] (lines 110-113). *)
Definition initial_pagerank (corpus : corpus_t) : result (dict (num A)) :=
  let N := len (keys corpus) in
  for_each (keys corpus)
    (fun page pr =>
       v <- true_div A (of_int A 1) N ;;
       Ok (setitem pr page v))
    [].

(** The body of the [while] loop up to the new ranks (lines 116-122). *)
Definition new_pagerank (corpus : corpus_t) (damping_factor : num A)
  (pagerank : dict (num A)) : result (dict (num A)) :=
  let N := len (keys corpus) in
  for_each (keys corpus)
    (fun page np =>
       base <- true_div A (sub A (of_int A 1) damping_factor) N ;;
       for_each (keys corpus)
         (fun i np' =>
            links <- getitem corpus i ;;
            if contains links page then
              old <- getitem np' page ;;
              r <- getitem pagerank i ;;
              q <- true_div A (mul A damping_factor r) (len links) ;;
              Ok (setitem np' page (add A old q))
            else Ok np')
         (setitem np page base))
    [].

(** The convergence check (lines 117 and 124-127): the loop over the pages
    stops at the first page that moved by 0.001 or more. *)
Fixpoint converged (pages : list string) (new_ranks old_ranks : dict (num A))
  : result bool :=
  match pages with
  | [] => Ok true
  | page :: rest =>
      a <- getitem new_ranks page ;;
      b <- getitem old_ranks page ;;
      if geb A (absn A (sub A a b)) (threshold A) then Ok false
      else converged rest new_ranks old_ranks
  end.

(** The [while True] loop (lines 115-132), for at most [fuel] passes. *)
Fixpoint iterate_loop (fuel : nat) (corpus : corpus_t)
  (damping_factor : num A) (pagerank : dict (num A))
  : option (result (dict (num A))) :=
  match fuel with
  | O => None
  | S fuel' =>
      match new_pagerank corpus damping_factor pagerank with
      | Raise e => Some (Raise e)
      | Ok np =>
          match converged (keys corpus) np pagerank with
          | Raise e => Some (Raise e)
          | Ok true => Some (Ok pagerank)
          | Ok false => iterate_loop fuel' corpus damping_factor np
          end
      end
  end.

(** [iterate_pagerank(corpus, damping_factor)] *)
Definition iterate_pagerank (fuel : nat) (corpus : corpus_t)
  (damping_factor : num A) : option (result (dict (num A))) :=
  match initial_pagerank corpus with
  | Raise e => Some (Raise e)
  | Ok pagerank => iterate_loop fuel corpus damping_factor pagerank
  end.

End Program.

Arguments sample_step {A} R corpus damping_factor n st.
Arguments sample_pagerank {A} R g corpus damping_factor n.

(** [DAMPING = 0.85] *)
Definition DAMPING_exact : Q := 17 # 20.
Definition DAMPING_binary64 : float := 0.85%float.

(** [SAMPLES = 10000] *)
Definition SAMPLES : Z := 10000.

(* ================================================================== *)
(** ** Example graphs *)

Definition dangling_graph : corpus_t := [("A", ["B"]); ("B", [])].
Definition single_page : corpus_t := [("A", [])].
Definition two_cycle : corpus_t := [("A", ["B"]); ("B", ["A"])].
Definition hub_graph : corpus_t :=
  [("A", ["B"; "C"]); ("B", ["A"]); ("C", ["A"])].

(* ================================================================== *)
(** ** Closed forms and specification-level notions *)

(** The dictionary that gives every key of [ks] the value [v]. *)
Definition uniform {V : Type} (ks : list string) (v : V) : dict V :=
  map (fun k => (k, v)) ks.

(** [d[k] += h k] for every key [k] of [ks], as one pass over [d]. *)
Definition bump (A : Arith) (ks : list string) (h : string -> num A)
  (d : dict (num A)) : dict (num A) :=
  map (fun kv => (fst kv, if contains ks (fst kv)
                          then add A (snd kv) (h (fst kv)) else snd kv)) d.

(** The value of [transition_model] on a valid graph. *)
Definition transition_closed (A : Arith) (corpus : corpus_t) (page : string)
  (damping_factor : num A) : dict (num A) :=
  let base :=
    div A (sub A (of_int A 1) damping_factor) (of_int A (len (keys corpus))) in
  match lookup corpus page with
  | Some (l :: ls) =>
      bump A (l :: ls)
        (fun _ => div A damping_factor (of_int A (len (l :: ls))))
        (uniform (keys corpus) base)
  | _ => uniform (keys corpus) base
  end.

(** A total reading of a dictionary of rationals. *)
Definition value_of (d : dict Q) (k : string) : Q :=
  match lookup d k with
  | Some v => v
  | None => 0
  end.

(** The sum of the values of a dictionary of rationals. *)
Definition total (d : dict Q) : Q := fold_right Qplus 0 (values d).

(** The links of a page, the empty set for a page outside the corpus. *)
Definition links_of (corpus : corpus_t) (i : string) : list string :=
  match lookup corpus i with
  | Some links => links
  | None => []
  end.

(** What the inner loop of [new_pagerank] (lines 120-122) adds to the
    value [v0] of [new_pagerank[page]] while [i] runs through [srcs]. *)
Definition inflow_fold (A : Arith) (corpus : corpus_t)
  (damping_factor : num A) (pagerank : dict (num A)) (page : string)
  (srcs : list string) (v0 : num A) : num A :=
  fold_left
    (fun v i =>
       match lookup pagerank i with
       | Some r =>
           if contains (links_of corpus i) page
           then add A v (div A (mul A damping_factor r)
                           (of_int A (len (links_of corpus i))))
           else v
       | None => v
       end)
    srcs v0.

(** The value of [new_pagerank] on a corpus with unique page names. *)
Definition new_closed (A : Arith) (corpus : corpus_t)
  (damping_factor : num A) (pagerank : dict (num A)) : dict (num A) :=
  map (fun page =>
         (page,
          inflow_fold A corpus damping_factor pagerank page (keys corpus)
            (div A (sub A (of_int A 1) damping_factor)
               (of_int A (len (keys corpus))))))
      (keys corpus).

(** The recurrence as the specification writes it, in plain rational
    arithmetic: the sum over the pages [i] that link to [page] of
    [rank[i] / outdegree(i)] ... *)
Definition inflow_over (corpus : corpus_t) (rank : dict Q) (page : string)
  (srcs : list string) : Q :=
  fold_right Qplus 0
    (map (fun i => value_of rank i / inject_Z (len (links_of corpus i)))
       (filter (fun i => contains (links_of corpus i) page) srcs)).

Definition inflow (corpus : corpus_t) (rank : dict Q) (page : string) : Q :=
  inflow_over corpus rank page (keys corpus).

(** ... and [new_rank[p] = (1 - damping) / N + damping * inflow]. *)
Definition recurrence (corpus : corpus_t) (damping : Q) (rank : dict Q)
  (page : string) : Q :=
  (1 - damping) / inject_Z (len (keys corpus))
  + damping * inflow corpus rank page.

(** The convergence criterion of the specification: no page moved by
    0.001 or more. *)
Definition stable (corpus : corpus_t) (new_rank rank : dict Q) : Prop :=
  forall p, In p (keys corpus) ->
    Qabs (value_of new_rank p - value_of rank p) < 1 # 1000.

(** [d[k]] read as a number, 0 for a missing key. *)
Definition read (A : Arith) (d : dict (num A)) (k : string) : num A :=
  match lookup d k with
  | Some v => v
  | None => of_int A 0
  end.

(** The convergence test of the code, in any arithmetic: at no page does
    [abs(new_rank[p] - rank[p]) >= 0.001] hold. *)
Definition settled (A : Arith) (corpus : corpus_t)
  (new_rank rank : dict (num A)) : Prop :=
  forall p, In p (keys corpus) ->
    geb A (absn A (sub A (read A new_rank p) (read A rank p))) (threshold A)
    = false.

(** The accumulator after one pass of the inner loop of [sample_pagerank]
    (lines 94-95): every page is credited its probability divided by [n]. *)
Definition credit (A : Arith) (n : Z) (distribution pagerank : dict (num A))
  : dict (num A) :=
  bump A (keys pagerank)
    (fun page => div A (read A distribution page) (of_int A n)) pagerank.

(** The walk of the random surfer: [surf R corpus d g x k ds] says that
    [k] steps from page [x] and generator state [g] meet the distributions
    [ds], each one the transition model of the current page, the next page
    being drawn from that same distribution. *)
Inductive surf {A : Arith} (R : Random A) (corpus : corpus_t) (d : num A)
  : gen R -> string -> nat -> list (dict (num A)) -> Prop :=
| surf_done (g : gen R) (x : string) : surf R corpus d g x O []
| surf_step (g g' : gen R) (x y : string) (distribution : dict (num A))
    (k : nat) (ds : list (dict (num A))) :
    transition_model A corpus x d = Ok distribution ->
    choices R g (keys distribution) (values distribution) = Ok (y, g') ->
    surf R corpus d g' y k ds ->
    surf R corpus d g x (S k) (distribution :: ds).

(** The mass the specification credits to [page] along a walk: its
    probability under each distribution met, times [1 / sample_count]. *)
Definition accumulated (ds : list (dict Q)) (sample_count : Z)
  (page : string) : Q :=
  fold_right Qplus 0
    (map (fun distribution =>
            value_of distribution page * (1 / inject_Z sample_count))
       ds).

(** The sum of [f k] over the keys [ks]. *)
Definition sum_over (f : string -> Q) (ks : list string) : Q :=
  fold_right Qplus 0 (map f ks).

(** The pages of a corpus that have at least one outbound link. *)
Definition has_links (corpus : corpus_t) (page : string) : bool :=
  match lookup corpus page with
  | Some (_ :: _) => true
  | _ => false
  end.

(* ================================================================== *)
(** ** The crawler *)

(** [s.endswith(suffix)] *)
Definition endswith (s suffix : string) : bool :=
  let n := String.length s in
  let m := String.length suffix in
  Nat.leb m n && String.eqb (substring (n - m) m s) suffix.

(** [set(l)]: the elements of [l], each once. *)
Fixpoint to_set (l : list string) : list string :=
  match l with
  | [] => []
  | x :: rest => if contains rest x then to_set rest else x :: to_set rest
  end.

(** [s - {x}] *)
Definition discard (s : list string) (x : string) : list string :=
  filter (fun y => negb (String.eqb y x)) s.

Section Crawler.

(** [findall contents] is [re.findall(r"<a\s+(?:[^>]*?)href=...", contents)],
    the targets of the anchors of a page; the regular expression engine is
    kept abstract. *)
Variable findall : string -> list string.

(** [crawl(directory)].  The file system is an input: [directory] is the
    outcome of [os.listdir(directory)], the entries in the order listed or
    the exception raised; an entry is a name with the outcome of opening
    and reading that file, its contents or the exception raised. *)
Definition crawl (directory : result (list (string * result string)))
  : result corpus_t :=
  entries <- directory ;;
  pages <-
    for_each entries
      (fun entry pages =>
         let filename := fst entry in
         if negb (endswith filename ".html") then Ok pages
         else
           contents <- snd entry ;;
           let links := findall contents in
           Ok (setitem pages filename (discard (to_set links) filename)))
      [] ;;
  for_each (keys pages)
    (fun filename pages' =>
       links <- getitem pages' filename ;;
       Ok (setitem pages' filename (filter (contains (keys pages')) links)))
    pages.

(** The dictionary [pages] after the first loop of [crawl], for entries
    given with their contents. *)
Definition extracted (directory : list (string * string)) : corpus_t :=
  fold_left
    (fun pages entry =>
       if negb (endswith (fst entry) ".html") then pages
       else setitem pages (fst entry)
              (discard (to_set (findall (snd entry))) (fst entry)))
    directory [].

End Crawler.

(** The entries with the contents read; an entry that cannot be read
    counts as empty. *)
Definition plain (entries : list (string * result string))
  : list (string * string) :=
  map (fun entry => (fst entry,
                     match snd entry with
                     | Ok contents => contents
                     | Raise _ => ""
                     end))
      entries.

(** The exception of the first entry named [*.html] that cannot be read. *)
Fixpoint first_failure (entries : list (string * result string))
  : option exn :=
  match entries with
  | [] => None
  | entry :: rest =>
      if endswith (fst entry) ".html" then
        match snd entry with
        | Raise e => Some e
        | Ok _ => first_failure rest
        end
      else first_failure rest
  end.

(* ================================================================== *)
(** ** Notions for the mass and the convergence of the iteration *)

(** The part of the value [v i] of page [i] that the recurrence passes on
    to page [p]: [v i / outdegree(i)] when [i] links to [p], else 0. *)
Definition column (corpus : corpus_t) (v : string -> Q) (i p : string) : Q :=
  if contains (links_of corpus i) p
  then v i / inject_Z (len (links_of corpus i))
  else 0.



(** Unfolds the operations of [exact] to those of [Q]. *)
Ltac exact_ops :=
  cbn [exact add sub mul div absn geb num of_int] in *;
  change (num exact) with Q in *.

(* ================================================================== *)
(** ** Lists of page names *)

Lemma contains_In (s : list string) (x : string) :
  contains s x = true <-> In x s.
Proof.
  unfold contains. rewrite existsb_exists. split.
  - intros [y [Hy He]]. apply String.eqb_eq in He. now subst.
  - intro H. exists x. split; [assumption | apply String.eqb_refl].
Qed.

Lemma contains_not_In (s : list string) (x : string) :
  contains s x = false <-> ~ In x s.
Proof.
  rewrite <- contains_In. destruct (contains s x); split; congruence.
Qed.

Lemma distinct_NoDup (l : list string) : distinct l = true <-> NoDup l.
Proof.
  induction l as [|x l IH]; simpl.
  - split; [constructor | reflexivity].
  - rewrite andb_true_iff, negb_true_iff, contains_not_In, IH. split.
    + intros [H1 H2]. now constructor.
    + intro H. inversion H. now split.
Qed.

(** What [valid_graph] says, as propositions. *)
Lemma valid_graph_keys (corpus : corpus_t) :
  valid_graph corpus = true -> NoDup (keys corpus).
Proof.
  unfold valid_graph. rewrite andb_true_iff. intros [H _].
  now apply distinct_NoDup.
Qed.

Lemma lookup_In_values {V : Type} (d : dict V) (k : string) (v : V) :
  lookup d k = Some v -> In v (values d).
Proof.
  induction d as [|[k' v'] d IH]; simpl; [discriminate|].
  destruct (String.eqb k k').
  - intros [= ->]. now left.
  - intro H. right. now apply IH.
Qed.

Lemma valid_graph_links (corpus : corpus_t) (page : string)
  (links : list string) :
  valid_graph corpus = true -> lookup corpus page = Some links ->
  NoDup links /\ (forall q, In q links -> In q (keys corpus)).
Proof.
  unfold valid_graph. rewrite andb_true_iff. intros [_ H] Hl.
  rewrite forallb_forall in H.
  specialize (H links (lookup_In_values _ _ _ Hl)).
  rewrite andb_true_iff in H. destruct H as [H1 H2]. split.
  - now apply distinct_NoDup.
  - intros q Hq. rewrite forallb_forall in H2. apply contains_In. now apply H2.
Qed.

(* ================================================================== *)
(** ** Dictionaries *)

Section DictFacts.

Context {V : Type}.
Implicit Types (d : dict V) (k q : string) (v : V).

Lemma lookup_None d k : lookup d k = None <-> ~ In k (keys d).
Proof.
  induction d as [|[k' v'] d IH]; simpl.
  - split; [tauto | reflexivity].
  - destruct (String.eqb_spec k k') as [->|Hn].
    + split; [discriminate | intro H; exfalso; apply H; now left].
    + rewrite IH. split; intro H; [intros [E|E]; [congruence | tauto] | tauto].
Qed.

Lemma lookup_In d k : In k (keys d) -> exists v, lookup d k = Some v.
Proof.
  intro H. destruct (lookup d k) as [v|] eqn:E; [now exists v|].
  apply lookup_None in E. contradiction.
Qed.

Lemma lookup_Some_In d k v : lookup d k = Some v -> In k (keys d).
Proof.
  intro H. destruct (in_dec string_dec k (keys d)) as [Hi|Hn]; [assumption|].
  apply lookup_None in Hn. congruence.
Qed.

Lemma setitem_fresh d k v : ~ In k (keys d) -> setitem d k v = d ++ [(k, v)].
Proof.
  induction d as [|[k' v'] d IH]; simpl; intro H; [reflexivity|].
  destruct (String.eqb_spec k k') as [->|Hn]; [exfalso; apply H; now left|].
  rewrite IH; [reflexivity | tauto].
Qed.

Lemma setitem_present d k v :
  NoDup (keys d) -> In k (keys d) ->
  setitem d k v
  = map (fun kv => (fst kv, if String.eqb (fst kv) k then v else snd kv)) d.
Proof.
  induction d as [|[k' v'] d IH]; simpl; intros Hnd Hin; [contradiction|].
  inversion Hnd as [|? ? Hk' Hnd']; subst.
  destruct (String.eqb_spec k k') as [->|Hn].
  - rewrite String.eqb_refl. f_equal.
    rewrite <- (map_id d) at 1. apply map_ext_in. intros [k2 v2] H2. simpl.
    destruct (String.eqb_spec k2 k') as [->|]; [|reflexivity].
    exfalso. apply Hk'. change k' with (fst (k', v2)). now apply in_map.
  - destruct (String.eqb_spec k' k) as [E|_]; [congruence|].
    f_equal. apply IH; [assumption|]. destruct Hin; [congruence | assumption].
Qed.

Lemma keys_uniform (ks : list string) v : keys (uniform ks v) = ks.
Proof.
  unfold keys, uniform. rewrite map_map. simpl. apply map_id.
Qed.

Lemma lookup_uniform (ks : list string) v k :
  lookup (uniform ks v) k = if contains ks k then Some v else None.
Proof.
  induction ks as [|k' ks IH]; simpl; [reflexivity|].
  destruct (String.eqb k k'); [reflexivity | exact IH].
Qed.

Lemma lookup_map_values (f : string -> V -> V) d k :
  lookup (map (fun kv => (fst kv, f (fst kv) (snd kv))) d) k
  = option_map (f k) (lookup d k).
Proof.
  induction d as [|[k' v'] d IH]; simpl; [reflexivity|].
  destruct (String.eqb_spec k k') as [->|]; [reflexivity | exact IH].
Qed.

Lemma keys_map_values (f : string -> V -> V) d :
  keys (map (fun kv => (fst kv, f (fst kv) (snd kv))) d) = keys d.
Proof.
  unfold keys. rewrite map_map. reflexivity.
Qed.

(** Filling a dictionary with one value, key after key. *)
Lemma fill_loop (c : result V) v (ks : list string) d :
  c = Ok v -> NoDup (keys d ++ ks) ->
  for_each ks (fun k acc => x <- c ;; Ok (setitem acc k x)) d
  = Ok (d ++ uniform ks v).
Proof.
  intros -> . revert d. induction ks as [|k ks IH]; intros d Hnd; simpl.
  - now rewrite app_nil_r.
  - rewrite setitem_fresh.
    + rewrite IH.
      * now rewrite <- app_assoc.
      * unfold keys in *. rewrite map_app, <- app_assoc. exact Hnd.
    + apply NoDup_remove_2 in Hnd. intro H. apply Hnd.
      apply in_or_app. now left.
Qed.

End DictFacts.

Lemma lookup_of_In {V : Type} (d : dict V) (k : string) (v : V) :
  NoDup (keys d) -> In (k, v) d -> lookup d k = Some v.
Proof.
  induction d as [|[k' v'] d IH]; simpl; intros Hnd Hin; [contradiction|].
  inversion Hnd as [|? ? Hk' Hnd']; subst.
  destruct Hin as [[= -> ->]|Hin].
  - now rewrite String.eqb_refl.
  - destruct (String.eqb_spec k k') as [->|_]; [|now apply IH].
    exfalso. apply Hk'. change k' with (fst (k', v)). now apply in_map.
Qed.

Lemma for_each_ext {X S : Type} (xs : list X) (f g : X -> S -> result S)
  (s : S) :
  (forall x s', In x xs -> f x s' = g x s') ->
  for_each xs f s = for_each xs g s.
Proof.
  revert s. induction xs as [|x xs IH]; intros s H; simpl; [reflexivity|].
  rewrite (H x s (or_introl eq_refl)).
  destruct (g x s) as [s'|e]; simpl; [|reflexivity].
  apply IH. intros y s2 Hy. apply H. now right.
Qed.

Lemma len_nonzero {X : Type} (x : X) (l : list X) : len (x :: l) <> 0%Z.
Proof. unfold len. simpl. lia. Qed.

Lemma true_div_Ok (A : Arith) (x : num A) (k : Z) :
  k <> 0%Z -> true_div A x k = Ok (div A x (of_int A k)).
Proof.
  intro H. unfold true_div. destruct (Z.eqb_spec k 0); [contradiction|reflexivity].
Qed.

(* ================================================================== *)
(** ** The transition model *)

Section TransitionFacts.

Variable A : Arith.

Lemma bump_nil (h : string -> num A) (d : dict (num A)) : bump A [] h d = d.
Proof.
  unfold bump. simpl. rewrite <- (map_id d) at 2.
  apply map_ext. now intros [k v].
Qed.

Lemma keys_bump ks (h : string -> num A) (d : dict (num A)) :
  keys (bump A ks h d) = keys d.
Proof.
  unfold bump, keys. rewrite map_map. reflexivity.
Qed.

Lemma lookup_bump ks (h : string -> num A) (d : dict (num A)) (k : string) :
  lookup (bump A ks h d) k
  = option_map (fun v => if contains ks k then add A v (h k) else v)
      (lookup d k).
Proof.
  unfold bump.
  exact (lookup_map_values
           (fun k v => if contains ks k then add A v (h k) else v) d k).
Qed.

(** The loop [for k in ks: d[k] += g(k)] adds [h k] once to each key. *)
Lemma bump_loop (g : string -> result (num A)) (h : string -> num A)
  (ks : list string) (d : dict (num A)) :
  NoDup ks -> NoDup (keys d) ->
  (forall k, In k ks -> In k (keys d)) ->
  (forall k, In k ks -> g k = Ok (h k)) ->
  for_each ks
    (fun k acc =>
       old <- getitem acc k ;; x <- g k ;; Ok (setitem acc k (add A old x)))
    d
  = Ok (bump A ks h d).
Proof.
  revert d. induction ks as [|k ks IH]; intros d Hks Hd Hin Hg; simpl.
  - now rewrite bump_nil.
  - inversion Hks as [|? ? Hk Hks']; subst.
    destruct (lookup_In d k (Hin k (or_introl eq_refl))) as [old Hold].
    unfold getitem at 1. rewrite Hold. simpl.
    rewrite (Hg k (or_introl eq_refl)). simpl.
    rewrite setitem_present by auto using in_eq.
    rewrite IH; auto using in_cons.
    + f_equal. unfold bump. rewrite map_map. apply map_ext_in.
      intros [k2 v2] H2. simpl.
      destruct (String.eqb_spec k2 k) as [->|Hne].
      * apply contains_not_In in Hk. rewrite Hk.
        rewrite (lookup_of_In d k v2 Hd H2) in Hold. now injection Hold as ->.
      * reflexivity.
    + now rewrite (keys_map_values (fun k2 v2 =>
                     if String.eqb k2 k then add A old (h k) else v2)).
    + intros q Hq.
      rewrite (keys_map_values (fun k2 v2 =>
                 if String.eqb k2 k then add A old (h k) else v2)).
      apply Hin. now right.
Qed.

(** On a valid graph the transition model raises nothing and returns
    [transition_closed]. *)
Lemma transition_model_closed (corpus : corpus_t) (page : string)
  (damping_factor : num A) :
  valid_graph corpus = true ->
  transition_model A corpus page damping_factor
  = Ok (transition_closed A corpus page damping_factor).
Proof.
  intro Hv. pose proof (valid_graph_keys corpus Hv) as Hnd.
  unfold transition_model, transition_closed.
  destruct corpus as [|[p0 l0] rest] eqn:Ec; [reflexivity|].
  rewrite <- Ec in *.
  assert (HN : len (keys corpus) <> 0%Z)
    by (rewrite Ec; apply len_nonzero).
  rewrite (fill_loop _ _ _ [] (true_div_Ok A _ _ HN)) by exact Hnd.
  simpl app. cbn [bind].
  destruct (lookup corpus page) as [[|l ls]|] eqn:El; [reflexivity| |reflexivity].
  destruct (Z.eqb_spec (len (l :: ls)) 0) as [E|_];
    [exfalso; exact (len_nonzero _ _ E)|].
  unfold getitem. rewrite El. cbn [bind].
  destruct (valid_graph_links corpus page (l :: ls) Hv El) as [Hl Hsub].
  apply (bump_loop (fun _ => true_div A damping_factor (len (l :: ls)))
                   (fun _ => div A damping_factor (of_int A (len (l :: ls))))).
  - exact Hl.
  - now rewrite keys_uniform.
  - intros k Hk. rewrite keys_uniform. now apply Hsub.
  - intros k _. apply true_div_Ok. apply len_nonzero.
Qed.

End TransitionFacts.

(** C6. For a page of a valid graph that has at least one outbound link,
    whatever the damping factor and the arithmetic, the transition model
    raises nothing and its distribution has exactly the pages of the graph
    as keys; every page receives the base term [(1 - damping) / N], and a
    page linked from the given page receives [damping / L] added to it. *)
Theorem transition_model_linked (A : Arith) (corpus : corpus_t)
  (page : string) (links : list string) (damping_factor : num A) :
  valid_graph corpus = true ->
  lookup corpus page = Some links ->
  links <> [] ->
  let base := div A (sub A (of_int A 1) damping_factor)
                (of_int A (len (keys corpus))) in
  let share := div A damping_factor (of_int A (len links)) in
  exists pd,
    transition_model A corpus page damping_factor = Ok pd
    /\ keys pd = keys corpus
    /\ forall q, In q (keys corpus) ->
         lookup pd q
         = Some (if contains links q then add A base share else base).
Proof.
  intros Hv Hl Hne base share.
  exists (transition_closed A corpus page damping_factor).
  split; [now apply transition_model_closed|].
  unfold transition_closed. rewrite Hl.
  destruct links as [|l ls]; [congruence|].
  split.
  - now rewrite keys_bump, keys_uniform.
  - intros q Hq. rewrite lookup_bump, lookup_uniform.
    apply contains_In in Hq. rewrite Hq. reflexivity.
Qed.

Lemma transition_model_linked_witness :
  exists pd,
    transition_model exact two_cycle "A" DAMPING_exact = Ok pd
    /\ keys pd = keys two_cycle
    /\ forall q, In q (keys two_cycle) ->
         lookup pd q
         = Some (if contains ["B"] q
                 then add exact (div exact (sub exact 1 DAMPING_exact) 2)
                        (div exact DAMPING_exact 1)
                 else div exact (sub exact 1 DAMPING_exact) 2).
Proof.
  apply (transition_model_linked exact two_cycle "A" ["B"] DAMPING_exact).
  - reflexivity.
  - reflexivity.
  - discriminate.
Defined.

(** C1, at the dangling page of the specification's example.  For the graph
    [{A: {B}, B: {}}] and damping 0.85 the transition model gives page B
    the distribution [{A: 0.075, B: 0.075}], in rational arithmetic and in
    binary64 alike: nothing is redistributed and the values sum to 0.15. *)
Theorem transition_model_dangling_page :
  transition_model exact dangling_graph "B" DAMPING_exact
  = Ok [("A", 3 # 40); ("B", 3 # 40)]
  /\ total [("A", 3 # 40); ("B", 3 # 40)] == 3 # 20
  /\ transition_model binary64 dangling_graph "B" DAMPING_binary64
     = Ok [("A", 0.07500000000000001%float); ("B", 0.07500000000000001%float)]
  /\ PrimFloat.add 0.07500000000000001 0.07500000000000001
     = 0.15000000000000002%float.
Proof.
  repeat split; vm_compute; reflexivity.
Qed.

(* ================================================================== *)
(** ** The iterative estimator *)

Lemma setitem_setitem {V : Type} (d : dict V) (k : string) (v w : V) :
  setitem (setitem d k v) k w = setitem d k w.
Proof.
  induction d as [|[k' v'] d IH]; simpl.
  - now rewrite String.eqb_refl.
  - destruct (String.eqb k k') eqn:E; simpl; rewrite E; [reflexivity|].
    now rewrite IH.
Qed.

Lemma lookup_setitem_same {V : Type} (d : dict V) (k : string) (v : V) :
  lookup (setitem d k v) k = Some v.
Proof.
  induction d as [|[k' v'] d IH]; simpl.
  - now rewrite String.eqb_refl.
  - destruct (String.eqb k k') eqn:E; simpl; rewrite E; [reflexivity|exact IH].
Qed.

Lemma setitem_unchanged {V : Type} (d : dict V) (k : string) (v : V) :
  lookup d k = Some v -> setitem d k v = d.
Proof.
  induction d as [|[k' v'] d IH]; simpl; [discriminate|].
  destruct (String.eqb k k').
  - now intros [= ->].
  - intro H. f_equal. now apply IH.
Qed.

Lemma links_of_lookup (corpus : corpus_t) (i : string) :
  In i (keys corpus) -> lookup corpus i = Some (links_of corpus i).
Proof.
  intro H. unfold links_of. destruct (lookup_In corpus i H) as [l ->].
  reflexivity.
Qed.

Lemma contains_nonempty (s : list string) (x : string) :
  contains s x = true -> len s <> 0%Z.
Proof.
  destruct s; [discriminate | intros _; apply len_nonzero].
Qed.

Section IterateFacts.

Variable A : Arith.
Variable corpus : corpus_t.
Variable damping_factor : num A.

(** The inner loop only rewrites [np[page]]. *)
Lemma inflow_loop (pagerank : dict (num A)) (page : string)
  (srcs : list string) (np : dict (num A)) (v0 : num A) :
  (forall i, In i srcs -> In i (keys corpus)) ->
  (forall i, In i srcs -> In i (keys pagerank)) ->
  lookup np page = Some v0 ->
  for_each srcs
    (fun i np' =>
       links <- getitem corpus i ;;
       if contains links page then
         old <- getitem np' page ;;
         r <- getitem pagerank i ;;
         q <- true_div A (mul A damping_factor r) (len links) ;;
         Ok (setitem np' page (add A old q))
       else Ok np')
    np
  = Ok (setitem np page
          (inflow_fold A corpus damping_factor pagerank page srcs v0)).
Proof.
  revert np v0. induction srcs as [|i srcs IH]; intros np v0 Hc Hr Hv; simpl.
  - now rewrite setitem_unchanged.
  - unfold getitem at 1.
    rewrite (links_of_lookup corpus i (Hc i (or_introl eq_refl))).
    cbn [bind].
    destruct (lookup_In pagerank i (Hr i (or_introl eq_refl))) as [r Er].
    rewrite Er.
    destruct (contains (links_of corpus i) page) eqn:Ec.
    + unfold getitem. rewrite Hv, Er. cbn [bind].
      rewrite true_div_Ok by (eapply contains_nonempty; eassumption).
      cbn [bind].
      rewrite (IH _ (add A v0 (div A (mul A damping_factor r)
                                 (of_int A (len (links_of corpus i))))));
        auto using in_cons, lookup_setitem_same.
      now rewrite setitem_setitem.
    + cbn [bind]. apply IH; auto using in_cons.
Qed.

Lemma new_pagerank_loop (pagerank : dict (num A)) (ps : list string)
  (acc : dict (num A)) :
  len (keys corpus) <> 0%Z ->
  (forall i, In i (keys corpus) -> In i (keys pagerank)) ->
  NoDup (keys acc ++ ps) ->
  for_each ps
    (fun page np =>
       base <- true_div A (sub A (of_int A 1) damping_factor)
                 (len (keys corpus)) ;;
       for_each (keys corpus)
         (fun i np' =>
            links <- getitem corpus i ;;
            if contains links page then
              old <- getitem np' page ;;
              r <- getitem pagerank i ;;
              q <- true_div A (mul A damping_factor r) (len links) ;;
              Ok (setitem np' page (add A old q))
            else Ok np')
         (setitem np page base))
    acc
  = Ok (acc ++
        map (fun page =>
               (page,
                inflow_fold A corpus damping_factor pagerank page
                  (keys corpus)
                  (div A (sub A (of_int A 1) damping_factor)
                     (of_int A (len (keys corpus))))))
            ps).
Proof.
  intros HN Hr. rewrite (true_div_Ok A _ _ HN). cbn [bind].
  revert acc. induction ps as [|p ps IH]; intros acc Hnd; cbn [for_each map].
  - now rewrite app_nil_r.
  - rewrite (inflow_loop pagerank p (keys corpus) _ _
               (fun _ H => H) Hr (lookup_setitem_same acc p _)).
    cbn [bind]. rewrite setitem_setitem.
    assert (Hp : ~ In p (keys acc)).
    { apply NoDup_remove_2 in Hnd. intro H. apply Hnd.
      apply in_or_app. now left. }
    rewrite setitem_fresh by exact Hp.
    rewrite IH.
    + now rewrite <- app_assoc.
    + unfold keys in *. rewrite map_app, <- app_assoc. exact Hnd.
Qed.

(** On a corpus with unique page names, and ranks for all its pages,
    [new_pagerank] raises nothing and returns [new_closed]. *)
Lemma new_pagerank_closed (pagerank : dict (num A)) :
  NoDup (keys corpus) ->
  (forall i, In i (keys corpus) -> In i (keys pagerank)) ->
  new_pagerank A corpus damping_factor pagerank
  = Ok (new_closed A corpus damping_factor pagerank).
Proof.
  intros Hnd Hr. unfold new_pagerank, new_closed.
  destruct (keys corpus) as [|k ks] eqn:Ek; [reflexivity|].
  rewrite <- Ek in *.
  apply (new_pagerank_loop pagerank (keys corpus) []); auto.
  rewrite Ek. apply len_nonzero.
Qed.

Lemma keys_new_closed (pagerank : dict (num A)) :
  keys (new_closed A corpus damping_factor pagerank) = keys corpus.
Proof.
  unfold new_closed, keys. rewrite map_map. simpl. apply map_id.
Qed.

Lemma initial_pagerank_closed :
  NoDup (keys corpus) ->
  initial_pagerank A corpus
  = Ok (uniform (keys corpus)
          (div A (of_int A 1) (of_int A (len (keys corpus))))).
Proof.
  intro Hnd. unfold initial_pagerank.
  destruct (keys corpus) as [|k ks] eqn:Ek; [reflexivity|].
  rewrite <- Ek in *.
  assert (HN : len (keys corpus) <> 0%Z) by (rewrite Ek; apply len_nonzero).
  now rewrite (fill_loop _ _ _ [] (true_div_Ok A _ _ HN)).
Qed.

(** The convergence check reads both vectors at every page it visits. *)
Lemma converged_Ok (ps : list string) (new_ranks old_ranks : dict (num A)) :
  (forall p, In p ps -> In p (keys new_ranks)) ->
  (forall p, In p ps -> In p (keys old_ranks)) ->
  exists b, converged A ps new_ranks old_ranks = Ok b.
Proof.
  induction ps as [|p ps IH]; intros Hn Ho; simpl.
  - now exists true.
  - destruct (lookup_In new_ranks p (Hn p (or_introl eq_refl))) as [a Ea].
    destruct (lookup_In old_ranks p (Ho p (or_introl eq_refl))) as [b Eb].
    unfold getitem. rewrite Ea, Eb. cbn [bind].
    destruct (geb A (absn A (sub A a b)) (threshold A)).
    + now exists false.
    + apply IH; auto using in_cons.
Qed.

Lemma converged_true (ps : list string) (new_ranks old_ranks : dict (num A)) :
  converged A ps new_ranks old_ranks = Ok true ->
  forall p, In p ps ->
    exists a b, lookup new_ranks p = Some a /\ lookup old_ranks p = Some b
                /\ geb A (absn A (sub A a b)) (threshold A) = false.
Proof.
  induction ps as [|p ps IH]; simpl; intros H q Hq; [contradiction|].
  unfold getitem in H.
  destruct (lookup new_ranks p) as [a|] eqn:Ea; [|discriminate].
  destruct (lookup old_ranks p) as [b|] eqn:Eb; [|discriminate].
  cbn [bind] in H.
  destruct (geb A (absn A (sub A a b)) (threshold A)) eqn:Eg; [discriminate|].
  destruct Hq as [<-|Hq].
  - now exists a, b.
  - now apply IH.
Qed.

Lemma converged_false (ps : list string) (new_ranks old_ranks : dict (num A)) :
  converged A ps new_ranks old_ranks = Ok false ->
  exists p a b, In p ps /\ lookup new_ranks p = Some a
                /\ lookup old_ranks p = Some b
                /\ geb A (absn A (sub A a b)) (threshold A) = true.
Proof.
  induction ps as [|p ps IH]; simpl; intro H; [discriminate|].
  unfold getitem in H.
  destruct (lookup new_ranks p) as [a|] eqn:Ea; [|discriminate].
  destruct (lookup old_ranks p) as [b|] eqn:Eb; [|discriminate].
  cbn [bind] in H.
  destruct (geb A (absn A (sub A a b)) (threshold A)) eqn:Eg.
  - exists p, a, b. auto.
  - destruct (IH H) as (q & a' & b' & Hq & H1 & H2 & H3).
    exists q, a', b'. auto.
Qed.

(** The loop hands back the vector it held before its last pass. *)
Lemma iterate_loop_returns (fuel : nat) (pagerank r : dict (num A)) :
  iterate_loop A fuel corpus damping_factor pagerank = Some (Ok r) ->
  exists np,
    new_pagerank A corpus damping_factor r = Ok np
    /\ converged A (keys corpus) np r = Ok true.
Proof.
  revert pagerank. induction fuel as [|fuel IH]; intros pagerank; simpl.
  - discriminate.
  - destruct (new_pagerank A corpus damping_factor pagerank) as [np|e] eqn:En;
      [|discriminate].
    destruct (converged A (keys corpus) np pagerank) as [[|]|e] eqn:Ec.
    + intros [= <-]. now exists np.
    + apply IH.
    + discriminate.
Qed.

End IterateFacts.

(* ================================================================== *)
(** ** Rational arithmetic *)

Lemma inflow_fold_exact (corpus : corpus_t) (d : Q) (rank : dict Q)
  (page : string) (srcs : list string) (v0 : Q) :
  inflow_fold exact corpus d rank page srcs v0
  == v0 + d * inflow_over corpus rank page srcs.
Proof.
  unfold inflow_fold, inflow_over. revert v0.
  induction srcs as [|i srcs IH]; intro v0; cbn [fold_left filter].
  - simpl. ring.
  - rewrite IH. cbv beta. unfold value_of. exact_ops.
    destruct (contains (links_of corpus i) page);
      cbn [map fold_right];
      destruct (lookup rank i) as [r|];
      rewrite ?Qred_correct; unfold Qdiv; ring.
Qed.

Lemma threshold_exact : threshold exact == 1 # 1000.
Proof. reflexivity. Qed.

(** In binary64 the threshold is the double Python reads for [0.001]. *)
Lemma threshold_binary64 : threshold binary64 = 0.001%float.
Proof. reflexivity. Qed.

Lemma moved_exact (a b : Q) :
  geb exact (absn exact (sub exact a b)) (threshold exact) = false
  <-> Qabs (a - b) < 1 # 1000.
Proof.
  exact_ops. rewrite <- not_true_iff_false, Qle_bool_iff.
  rewrite threshold_exact, !Qred_correct. split.
  - apply Qnot_le_lt.
  - apply Qlt_not_le.
Qed.

Lemma lookup_tabulate {V : Type} (f : string -> V) (ks : list string)
  (k : string) :
  lookup (map (fun p => (p, f p)) ks) k
  = if contains ks k then Some (f k) else None.
Proof.
  induction ks as [|k' ks IH]; simpl; [reflexivity|].
  destruct (String.eqb_spec k k') as [->|]; [reflexivity | exact IH].
Qed.

Lemma value_of_new_closed (corpus : corpus_t) (d : Q) (rank : dict Q)
  (p : string) :
  In p (keys corpus) ->
  value_of (new_closed exact corpus d rank) p == recurrence corpus d rank p.
Proof.
  intro Hp. unfold value_of, new_closed. rewrite lookup_tabulate.
  apply contains_In in Hp. rewrite Hp.
  rewrite inflow_fold_exact. unfold recurrence, inflow. exact_ops.
  now rewrite !Qred_correct.
Qed.

(** In rational arithmetic the convergence check decides [stable]. *)
Lemma converged_stable (corpus : corpus_t) (nr rank : dict Q) :
  converged exact (keys corpus) nr rank = Ok true -> stable corpus nr rank.
Proof.
  intros H p Hp.
  destruct (converged_true exact _ _ _ H p Hp) as (a & b & Ea & Eb & Hg).
  unfold value_of. exact_ops. rewrite Ea, Eb. now apply moved_exact.
Qed.


Lemma iterate_loop_stop (A : Arith) (corpus : corpus_t) (d : num A)
  (fuel : nat) (rank np : dict (num A)) :
  new_pagerank A corpus d rank = Ok np ->
  converged A (keys corpus) np rank = Ok true ->
  iterate_loop A (S fuel) corpus d rank = Some (Ok rank).
Proof.
  intros Hn Hc. cbn [iterate_loop]. now rewrite Hn, Hc.
Qed.

Lemma iterate_loop_continue (A : Arith) (corpus : corpus_t) (d : num A)
  (fuel : nat) (rank np : dict (num A)) :
  new_pagerank A corpus d rank = Ok np ->
  converged A (keys corpus) np rank = Ok false ->
  iterate_loop A (S fuel) corpus d rank = iterate_loop A fuel corpus d np.
Proof.
  intros Hn Hc. cbn [iterate_loop]. now rewrite Hn, Hc.
Qed.

(** A page without outbound links adds nothing to the inflow of any page. *)
Lemma inflow_skips_dangling (corpus : corpus_t) (rank : dict Q)
  (page : string) (srcs : list string) :
  inflow_over corpus rank page srcs
  = inflow_over corpus rank page
      (filter (fun i => negb (Z.eqb (len (links_of corpus i)) 0)) srcs).
Proof.
  unfold inflow_over. do 2 f_equal.
  induction srcs as [|i srcs IH]; [reflexivity|]. cbn [filter].
  destruct (links_of corpus i) as [|l ls] eqn:El.
  - cbn. exact IH.
  - cbn -[contains]. rewrite El.
    destruct (contains (l :: ls) page); now rewrite IH.
Qed.

Lemma read_lookup (A : Arith) (d : dict (num A)) (k : string) (v : num A) :
  lookup d k = Some v -> read A d k = v.
Proof.
  intro H. unfold read. now rewrite H.
Qed.

(** The convergence check of the code decides [settled], in any
    arithmetic. *)
Lemma converged_settled (A : Arith) (corpus : corpus_t)
  (nr rank : dict (num A)) :
  converged A (keys corpus) nr rank = Ok true -> settled A corpus nr rank.
Proof.
  intros H p Hp.
  destruct (converged_true A _ _ _ H p Hp) as (a & b & Ea & Eb & Hg).
  now rewrite (read_lookup A nr p a Ea), (read_lookup A rank p b Eb).
Qed.

Lemma converged_unsettled (A : Arith) (corpus : corpus_t)
  (nr rank : dict (num A)) :
  converged A (keys corpus) nr rank = Ok false -> ~ settled A corpus nr rank.
Proof.
  intros H Hs.
  destruct (converged_false A _ _ _ H) as (p & a & b & Hp & Ea & Eb & Hg).
  specialize (Hs p Hp).
  rewrite (read_lookup A nr p a Ea), (read_lookup A rank p b Eb) in Hs.
  congruence.
Qed.

(** C2.  In every arithmetic, binary64 included, on a corpus with unique
    page names: the iteration starts from rank [1 / N] for every page; one
    pass returns the new ranks, computed page by page from the base term by
    adding [damping * rank[i] / outdegree(i)] for the pages [i] that link
    to the page, in the order of the corpus; the loop returns the current
    ranks exactly when the test [abs(new - old) >= 0.001] fails at every
    page, and otherwise goes on with the new ranks.  In rational arithmetic
    the new rank of a page [p] is [(1 - damping) / N + damping * (sum over
    the pages i that link to p of rank[i] / outdegree(i))], where pages
    without outbound links add nothing to the sum, and the test fails at
    every page exactly when every page moved by less than 0.001. *)
Theorem iterate_pagerank_recurrence :
  (forall (A : Arith) (corpus : corpus_t) (damping : num A),
     distinct (keys corpus) = true ->
     exists r0,
       initial_pagerank A corpus = Ok r0
       /\ keys r0 = keys corpus
       /\ (forall p, In p (keys corpus) ->
             lookup r0 p
             = Some (div A (of_int A 1) (of_int A (len (keys corpus)))))
       /\ (forall fuel,
             iterate_pagerank A fuel corpus damping
             = iterate_loop A fuel corpus damping r0)
       /\ forall rank, keys rank = keys corpus ->
            exists nr,
              new_pagerank A corpus damping rank = Ok nr
              /\ nr = new_closed A corpus damping rank
              /\ keys nr = keys corpus
              /\ forall fuel,
                   (settled A corpus nr rank ->
                    iterate_loop A (S fuel) corpus damping rank
                    = Some (Ok rank))
                   /\ (~ settled A corpus nr rank ->
                       iterate_loop A (S fuel) corpus damping rank
                       = iterate_loop A fuel corpus damping nr))
  /\ (forall (corpus : corpus_t) (damping : Q) (rank nr : dict Q),
        distinct (keys corpus) = true ->
        keys rank = keys corpus ->
        new_pagerank exact corpus damping rank = Ok nr ->
        (forall p, In p (keys corpus) ->
           value_of nr p == recurrence corpus damping rank p
           /\ inflow corpus rank p
              = inflow_over corpus rank p
                  (filter (fun i => negb (Z.eqb (len (links_of corpus i)) 0))
                     (keys corpus)))
        /\ (settled exact corpus nr rank <-> stable corpus nr rank)).
Proof.
  split.
  - intros A corpus damping Hd. apply distinct_NoDup in Hd.
    exists (uniform (keys corpus)
              (div A (of_int A 1) (of_int A (len (keys corpus))))).
    split; [now apply initial_pagerank_closed|].
    split; [apply keys_uniform|].
    split.
    { intros p Hp. rewrite lookup_uniform.
      apply contains_In in Hp. now rewrite Hp. }
    split.
    { intro fuel. unfold iterate_pagerank.
      now rewrite initial_pagerank_closed. }
    intros rank Hk.
    assert (Hn : new_pagerank A corpus damping rank
                 = Ok (new_closed A corpus damping rank)).
    { apply new_pagerank_closed; [exact Hd|]. intros i Hi. now rewrite Hk. }
    exists (new_closed A corpus damping rank).
    split; [exact Hn|]. split; [reflexivity|].
    split; [apply keys_new_closed|].
    intro fuel.
    destruct (converged_Ok A (keys corpus)
                (new_closed A corpus damping rank) rank) as [[|] Hc].
    + intros p Hp. now rewrite keys_new_closed.
    + intros p Hp. now rewrite Hk.
    + split.
      * intros _. eapply iterate_loop_stop; eassumption.
      * intro Hns. exfalso. apply Hns. now apply converged_settled.
    + split.
      * intro Hs. exfalso. revert Hs. now apply converged_unsettled.
      * intros _. eapply iterate_loop_continue; eassumption.
  - intros corpus damping rank nr Hd Hk Hn. apply distinct_NoDup in Hd.
    rewrite new_pagerank_closed in Hn
      by (auto; intros i Hi; exact_ops; now rewrite Hk).
    injection Hn as <-. split.
    + intros p Hp. split; [now apply value_of_new_closed|].
      apply inflow_skips_dangling.
    + unfold settled, stable. split; intros H p Hp.
      * apply moved_exact. exact (H p Hp).
      * apply moved_exact. exact (H p Hp).
Qed.

Lemma iterate_pagerank_recurrence_witness :
  (exists r0,
     initial_pagerank binary64 two_cycle = Ok r0
     /\ keys r0 = keys two_cycle
     /\ (forall p, In p (keys two_cycle) ->
           lookup r0 p
           = Some (div binary64 (of_int binary64 1)
                     (of_int binary64 (len (keys two_cycle)))))
     /\ (forall fuel,
           iterate_pagerank binary64 fuel two_cycle DAMPING_binary64
           = iterate_loop binary64 fuel two_cycle DAMPING_binary64 r0)
     /\ forall rank, keys rank = keys two_cycle ->
          exists nr,
            new_pagerank binary64 two_cycle DAMPING_binary64 rank = Ok nr
            /\ nr = new_closed binary64 two_cycle DAMPING_binary64 rank
            /\ keys nr = keys two_cycle
            /\ forall fuel,
                 (settled binary64 two_cycle nr rank ->
                  iterate_loop binary64 (S fuel) two_cycle DAMPING_binary64
                    rank
                  = Some (Ok rank))
                 /\ (~ settled binary64 two_cycle nr rank ->
                     iterate_loop binary64 (S fuel) two_cycle
                       DAMPING_binary64 rank
                     = iterate_loop binary64 fuel two_cycle
                         DAMPING_binary64 nr))
  /\ ((forall p, In p (keys dangling_graph) ->
         value_of [("A", 3 # 40); ("B", 1 # 2)] p
         == recurrence dangling_graph DAMPING_exact
              [("A", 1 # 2); ("B", 1 # 2)] p
         /\ inflow dangling_graph [("A", 1 # 2); ("B", 1 # 2)] p
            = inflow_over dangling_graph [("A", 1 # 2); ("B", 1 # 2)] p
                (filter
                   (fun i => negb (Z.eqb (len (links_of dangling_graph i)) 0))
                   (keys dangling_graph)))
      /\ (settled exact dangling_graph [("A", 3 # 40); ("B", 1 # 2)]
            [("A", 1 # 2); ("B", 1 # 2)]
          <-> stable dangling_graph [("A", 3 # 40); ("B", 1 # 2)]
                [("A", 1 # 2); ("B", 1 # 2)])).
Proof.
  split.
  - apply (proj1 iterate_pagerank_recurrence binary64 two_cycle
             DAMPING_binary64).
    reflexivity.
  - apply (proj2 iterate_pagerank_recurrence dangling_graph DAMPING_exact
             [("A", 1 # 2); ("B", 1 # 2)] [("A", 3 # 40); ("B", 1 # 2)]).
    + reflexivity.
    + reflexivity.
    + vm_compute. reflexivity.
Defined.

(** C7. On the two-page graph in which A and B link to each other, with
    damping 0.85, the iterative estimator returns after its first pass, for
    any fuel of at least one pass, and its result is [{A: 0.5, B: 0.5}]:
    in rational arithmetic and bit for bit in binary64. *)
Theorem iterate_pagerank_two_cycle (fuel : nat) :
  iterate_pagerank exact (S fuel) two_cycle DAMPING_exact
  = Some (Ok [("A", 1 # 2); ("B", 1 # 2)])
  /\ iterate_pagerank binary64 (S fuel) two_cycle DAMPING_binary64
     = Some (Ok [("A", 0.5%float); ("B", 0.5%float)]).
Proof.
  split.
  - unfold iterate_pagerank.
    replace (initial_pagerank exact two_cycle)
      with (@Ok (dict (num exact)) [("A", 1 # 2); ("B", 1 # 2)])
      by (vm_compute; reflexivity).
    apply (iterate_loop_stop exact two_cycle DAMPING_exact fuel _
             [("A", 1 # 2); ("B", 1 # 2)]); vm_compute; reflexivity.
  - unfold iterate_pagerank.
    replace (initial_pagerank binary64 two_cycle)
      with (@Ok (dict (num binary64)) [("A", 0.5%float); ("B", 0.5%float)])
      by (vm_compute; reflexivity).
    apply (iterate_loop_stop binary64 two_cycle DAMPING_binary64 fuel _
             [("A", 0.5%float); ("B", 0.5%float)]); vm_compute; reflexivity.
Qed.

(** C10. Whenever the iterative estimator returns a vector [r], one more
    application of the recurrence to [r] gives a vector [nr] that moved
    less than 0.001 at every page: [r] is the iterate before the last pass,
    and [nr], the vector computed in that pass, is dropped.  The two need
    not be equal: on the graph [{A: {B, C}, B: {A}, C: {A}}] with damping
    0.85 they differ at page A, in rational arithmetic and in binary64. *)
Theorem iterate_pagerank_returns_previous :
  (forall (corpus : corpus_t) (damping : Q) (fuel : nat) (r : dict Q),
     iterate_pagerank exact fuel corpus damping = Some (Ok r) ->
     exists nr,
       new_pagerank exact corpus damping r = Ok nr
       /\ converged exact (keys corpus) nr r = Ok true
       /\ stable corpus nr r)
  /\ (exists r nr,
        iterate_pagerank exact 100 hub_graph DAMPING_exact = Some (Ok r)
        /\ new_pagerank exact hub_graph DAMPING_exact r = Ok nr
        /\ ~ value_of nr "A" == value_of r "A")
  /\ (exists r nr,
        iterate_pagerank binary64 100 hub_graph DAMPING_binary64 = Some (Ok r)
        /\ new_pagerank binary64 hub_graph DAMPING_binary64 r = Ok nr
        /\ lookup nr "A" <> lookup r "A").
Proof.
  split; [|split].
  - intros corpus damping fuel r H. unfold iterate_pagerank in H.
    destruct (initial_pagerank exact corpus) as [r0|e]; [|discriminate].
    destruct (iterate_loop_returns exact corpus damping fuel r0 r H)
      as (nr & Hn & Hc).
    exists nr. auto using converged_stable.
  - eexists. eexists. split; [vm_compute; reflexivity|].
    split; [vm_compute; reflexivity|].
    vm_compute. discriminate.
  - eexists. eexists. split; [vm_compute; reflexivity|].
    split; [vm_compute; reflexivity|].
    vm_compute. discriminate.
Qed.

Lemma iterate_pagerank_returns_previous_witness :
  exists nr,
    new_pagerank exact two_cycle DAMPING_exact [("A", 1 # 2); ("B", 1 # 2)]
    = Ok nr
    /\ converged exact (keys two_cycle) nr [("A", 1 # 2); ("B", 1 # 2)]
       = Ok true
    /\ stable two_cycle nr [("A", 1 # 2); ("B", 1 # 2)].
Proof.
  apply (proj1 iterate_pagerank_returns_previous
           two_cycle DAMPING_exact 1%nat).
  vm_compute. reflexivity.
Defined.

(* ================================================================== *)
(** ** The sampling estimator *)

Section SampleFacts.

Variable A : Arith.
Variable R : Random A.
Variable corpus : corpus_t.
Variable damping_factor : num A.
Variable n : Z.

Hypothesis corpus_valid : valid_graph corpus = true.

Lemma keys_transition_closed (page : string) :
  keys (transition_closed A corpus page damping_factor) = keys corpus.
Proof.
  unfold transition_closed.
  destruct (lookup corpus page) as [[|l ls]|];
    now rewrite ?keys_bump, keys_uniform.
Qed.

Lemma keys_credit (distribution pagerank : dict (num A)) :
  keys (credit A n distribution pagerank) = keys pagerank.
Proof. apply keys_bump. Qed.

(** The accumulator starts at 0 on every page. *)
Lemma zero_loop :
  for_each (keys corpus)
    (fun page pr => Ok (setitem pr page (of_int A 0))) []
  = Ok (uniform (keys corpus) (of_int A 0)).
Proof.
  pose proof (fill_loop (Ok (of_int A 0)) (of_int A 0) (keys corpus) []
                eq_refl (valid_graph_keys corpus corpus_valid)) as H.
  cbn [bind] in H. exact H.
Qed.

(** One pass of the sampling loop, when [n] is not 0: the only step that
    can raise is the draw. *)
Lemma sample_step_closed (pagerank : dict (num A)) (current : string)
  (g : gen R) :
  n <> 0%Z -> keys pagerank = keys corpus ->
  sample_step R corpus damping_factor n (pagerank, current, g)
  = ' (next, g') <-
      choices R g
        (keys (transition_closed A corpus current damping_factor))
        (values (transition_closed A corpus current damping_factor)) ;;
    Ok (credit A n (transition_closed A corpus current damping_factor)
          pagerank, next, g').
Proof.
  intros Hn Hk. unfold sample_step.
  rewrite (transition_model_closed A corpus current damping_factor
             corpus_valid).
  cbn [bind].
  set (dist := transition_closed A corpus current damping_factor).
  pose proof (valid_graph_keys corpus corpus_valid) as Hnd.
  rewrite (for_each_ext (keys pagerank) _
             (fun page pr =>
                old <- getitem pr page ;;
                x <- (p <- getitem dist page ;; true_div A p n) ;;
                Ok (setitem pr page (add A old x)))).
  - rewrite (bump_loop A
               (fun page => p <- getitem dist page ;; true_div A p n)
               (fun page => div A (read A dist page) (of_int A n))).
    + reflexivity.
    + now rewrite Hk.
    + now rewrite Hk.
    + auto.
    + intros k Hin. rewrite Hk in Hin.
      rewrite <- (keys_transition_closed current) in Hin. fold dist in Hin.
      destruct (lookup_In dist k Hin) as [v Ev].
      unfold getitem, read. rewrite Ev. cbn [bind].
      now apply true_div_Ok.
  - intros page pr _.
    destruct (getitem pr page) as [old|e]; [|reflexivity]. cbn [bind].
    destruct (getitem dist page) as [p|e]; reflexivity.
Qed.

(** A run of the sampling loop that returns has followed a walk. *)
Lemma sample_loop_walk (k : nat) (st st' : dict (num A) * string * gen R) :
  for_range k (sample_step R corpus damping_factor n) st = Ok st' ->
  exists ds, surf R corpus damping_factor (snd st) (snd (fst st)) k ds.
Proof.
  revert st. induction k as [|k IH]; intros [[acc x] g]; cbn [for_range].
  - intros _. exists []. constructor.
  - destruct (sample_step R corpus damping_factor n (acc, x, g))
      as [[[acc1 y] g1]|e] eqn:Es; cbn [bind]; [|discriminate].
    intro Hrun. destruct (IH _ Hrun) as [ds Hds]. cbn [fst snd] in *.
    unfold sample_step in Es.
    destruct (transition_model A corpus x damping_factor) as [dist|e] eqn:Et;
      cbn [bind] in Es; [|discriminate].
    destruct (for_each (keys acc) _ acc) as [acc2|e];
      cbn [bind] in Es; [|discriminate].
    destruct (choices R g (keys dist) (values dist)) as [[y' g']|e] eqn:Ec;
      cbn [bind] in Es; [|discriminate].
    injection Es as -> -> ->.
    exists (dist :: ds). econstructor; eassumption.
Qed.

(** Whatever the damping factor, the sampling loop raises only what a
    draw of [random.choices] raises. *)
Lemma sample_loop_raise (k : nat) (pagerank : dict (num A)) (x : string)
  (g : gen R) (e : exn) :
  k = O \/ n <> 0%Z -> keys pagerank = keys corpus ->
  for_range k (sample_step R corpus damping_factor n) (pagerank, x, g)
  = Raise e ->
  exists g' population weights, choices R g' population weights = Raise e.
Proof.
  revert pagerank x g.
  induction k as [|k IH]; intros acc x g Hn Hk; cbn [for_range].
  - discriminate.
  - destruct Hn as [Hn|Hn]; [discriminate|].
    rewrite (sample_step_closed acc x g Hn Hk).
    destruct (choices R g
                (keys (transition_closed A corpus x damping_factor))
                (values (transition_closed A corpus x damping_factor)))
      as [[y g']|e'] eqn:Ec; cbn [bind].
    + apply IH; [now right | now rewrite keys_credit].
    + intros [= ->]. eauto.
Qed.

End SampleFacts.

Section SampleExact.

Variable R : Random exact.
Variable corpus : corpus_t.
Variable damping : Q.
Variable n : Z.

Hypothesis corpus_valid : valid_graph corpus = true.

Lemma value_of_credit (distribution pagerank : dict Q) (p : string) :
  In p (keys pagerank) ->
  value_of (credit exact n distribution pagerank) p
  == value_of pagerank p + value_of distribution p * (1 / inject_Z n).
Proof.
  intro Hp. unfold value_of at 1 2, credit. rewrite (lookup_bump exact).
  destruct (lookup_In pagerank p Hp) as [v Ev]. exact_ops. rewrite Ev.
  apply contains_In in Hp. cbn [option_map]. rewrite Hp.
  change (read exact distribution p) with (value_of distribution p).
  rewrite !Qred_correct. unfold Qdiv. ring.
Qed.

(** The sampling loop along a walk: the accumulator grows by the mass
    credited along the walk. *)
Lemma sample_loop (k : nat) (g : gen R) (x : string) (ds : list (dict Q)) :
  surf R corpus damping g x k ds ->
  forall acc : dict Q,
    k = O \/ n <> 0%Z ->
    keys acc = keys corpus ->
    exists acc' x' g',
      for_range k (sample_step R corpus damping n) (acc, x, g)
      = Ok (acc', x', g')
      /\ keys acc' = keys corpus
      /\ forall p, In p (keys corpus) ->
           value_of acc' p == value_of acc p + accumulated ds n p.
Proof.
  induction 1 as [g x | g g' x y dist k ds Ht Hc Hs IH]; intros acc Hn Hk.
  - exists acc, x, g. split; [reflexivity|]. split; [exact Hk|].
    intros p _. unfold accumulated. simpl. ring.
  - destruct Hn as [Hn|Hn]; [discriminate|].
    rewrite (transition_model_closed exact corpus x damping corpus_valid)
      in Ht.
    injection Ht as <-.
    destruct (IH (credit exact n (transition_closed exact corpus x damping)
                    acc))
      as (acc' & x' & g'' & Hrun & Hk' & Hv).
    + now right.
    + now rewrite (keys_credit exact).
    + exists acc', x', g''. split; [|split; [exact Hk'|]].
      * pose proof (sample_step_closed exact R corpus damping n corpus_valid
                      acc x g Hn Hk) as Hstep.
        rewrite Hc in Hstep. cbn [bind] in Hstep.
        cbn [for_range]. exact_ops. rewrite Hstep. exact Hrun.
      * intros p Hp. rewrite (Hv p Hp).
        rewrite value_of_credit by now rewrite Hk.
        unfold accumulated. cbn [map fold_right]. ring.
Qed.

End SampleExact.

(** C5. In rational arithmetic, on a valid graph: once the first page is
    drawn by [random.choice] among all pages, and along the walk of
    [sample_count - 1] further steps in which every next page is drawn by
    [random.choices] from the transition model's distribution of the
    current page, the estimator returns the accumulator: its pages are those
    of the graph, and the value of each is the sum, over the
    [sample_count - 1] distributions met, of the page's probability times
    [1 / sample_count].  Conversely every run that returns has made that
    first draw and followed such a walk. *)
Theorem sample_pagerank_accumulates (R : Random exact) (g : gen R)
  (corpus : corpus_t) (damping : Q) (sample_count : Z) :
  valid_graph corpus = true ->
  (forall (x0 : string) (g0 : gen R) (ds : list (dict Q)),
     random_choice R g (keys corpus) = Ok (x0, g0) ->
     surf R corpus damping g0 x0 (Z.to_nat (sample_count - 1)) ds ->
     exists r,
       sample_pagerank R g corpus damping sample_count = Ok r
       /\ keys r = keys corpus
       /\ List.length ds = Z.to_nat (sample_count - 1)
       /\ forall p, In p (keys corpus) ->
            value_of r p == accumulated ds sample_count p)
  /\ (forall r,
        sample_pagerank R g corpus damping sample_count = Ok r ->
        exists x0 g0 ds,
          random_choice R g (keys corpus) = Ok (x0, g0)
          /\ surf R corpus damping g0 x0 (Z.to_nat (sample_count - 1)) ds).
Proof.
  intros Hv. split.
  - intros x0 g0 ds Hc Hs.
    destruct (sample_loop R corpus damping sample_count Hv _ _ _ _ Hs
                (uniform (keys corpus) (of_int exact 0)))
      as (acc & x' & g' & Hrun & Hk & Hval).
    + destruct (Z.to_nat (sample_count - 1)) eqn:E; [now left|right; lia].
    + apply keys_uniform.
    + exists acc. unfold sample_pagerank.
      rewrite (zero_loop exact corpus Hv). cbn [bind].
      rewrite Hc. cbn [bind]. exact_ops. rewrite Hrun. cbn [bind].
      split; [reflexivity|]. split; [exact Hk|]. split.
      * clear -Hs. induction Hs; simpl; congruence.
      * intros p Hp. rewrite (Hval p Hp).
        unfold value_of. rewrite lookup_uniform.
        apply contains_In in Hp. rewrite Hp. ring.
  - intros r Hr. unfold sample_pagerank in Hr.
    rewrite (zero_loop exact corpus Hv) in Hr. cbn [bind] in Hr.
    destruct (random_choice R g (keys corpus)) as [[x0 g0]|e];
      cbn [bind] in Hr; [|discriminate].
    destruct (for_range (Z.to_nat (sample_count - 1))
                (sample_step R corpus damping sample_count)
                (uniform (keys corpus) (of_int exact 0), x0, g0))
      as [st|e] eqn:Erun; [|discriminate].
    destruct (sample_loop_walk exact R corpus damping sample_count _ _ _ Erun)
      as [ds Hds].
    exists x0, g0, ds. split; [reflexivity | exact Hds].
Qed.

Lemma sample_pagerank_accumulates_witness :
  exists r,
    sample_pagerank (scripted exact) [1%nat; 0%nat] two_cycle DAMPING_exact 3
    = Ok r
    /\ keys r = keys two_cycle
    /\ List.length [[("A", 37 # 40); ("B", 3 # 40)];
                    [("A", 3 # 40); ("B", 37 # 40)]]
       = Z.to_nat (3 - 1)
    /\ forall p, In p (keys two_cycle) ->
         value_of r p
         == accumulated [[("A", 37 # 40); ("B", 3 # 40)];
                         [("A", 3 # 40); ("B", 37 # 40)]] 3 p.
Proof.
  apply (proj1 (sample_pagerank_accumulates (scripted exact)
                  [1%nat; 0%nat] two_cycle DAMPING_exact 3 eq_refl)
           "B" [0%nat]).
  - reflexivity.
  - apply (surf_step (scripted exact) two_cycle DAMPING_exact
             [0%nat] [] "B" "A" [("A", 37 # 40); ("B", 3 # 40)]);
      [reflexivity | reflexivity |].
    apply (surf_step (scripted exact) two_cycle DAMPING_exact
             [] [] "A" "A" [("A", 3 # 40); ("B", 37 # 40)]);
      [reflexivity | reflexivity |].
    exact (surf_done (scripted exact) two_cycle DAMPING_exact [] "A").
Defined.

(** With a sample count of at most 1 the sampling loop does not run: the
    estimator returns the accumulator as initialised, 0 on every page. *)
Lemma sample_pagerank_no_step (A : Arith) (R : Random A) (g g0 : gen R)
  (corpus : corpus_t) (d : num A) (n : Z) (x0 : string) :
  valid_graph corpus = true -> (n <= 1)%Z ->
  random_choice R g (keys corpus) = Ok (x0, g0) ->
  sample_pagerank R g corpus d n = Ok (uniform (keys corpus) (of_int A 0)).
Proof.
  intros Hv Hn Hc. unfold sample_pagerank.
  rewrite (zero_loop A corpus Hv). cbn [bind]. rewrite Hc. cbn [bind].
  replace (Z.to_nat (n - 1)) with O by lia. reflexivity.
Qed.

Lemma scripted_draw_pair (tape : list nat) (a b : string) :
  scripted_draw tape [a; b] = Ok (a, tl tape)
  \/ scripted_draw tape [a; b] = Ok (b, tl tape).
Proof.
  unfold scripted_draw. cbn [List.length].
  pose proof (Nat.mod_upper_bound (hd O tape) 2 ltac:(discriminate)) as H.
  destruct (Nat.modulo (hd O tape) 2) as [|[|k]]; [now left | now right | lia].
Qed.

Lemma scripted_draw_single (tape : list nat) (a : string) :
  scripted_draw tape [a] = Ok (a, tl tape).
Proof.
  unfold scripted_draw. cbn [List.length]. now rewrite Nat.mod_1_r.
Qed.

(** C3, at sample count 1 and 2.  On the two-page graph in which A and B
    link to each other, with damping 0.85, a run with a single sample
    returns [{A: 0, B: 0}] whatever the generator draws, in rational
    arithmetic and in binary64: the values sum to 0.  With two samples
    the values sum to 1/2. *)
Theorem sample_pagerank_few_samples (tape : list nat) :
  sample_pagerank (scripted exact) tape two_cycle DAMPING_exact 1
  = Ok [("A", 0); ("B", 0)]
  /\ total [("A", 0); ("B", 0)] == 0
  /\ sample_pagerank (scripted binary64) tape two_cycle DAMPING_binary64 1
     = Ok [("A", 0%float); ("B", 0%float)]
  /\ sample_pagerank (scripted exact) [] two_cycle DAMPING_exact 2
     = Ok [("A", 3 # 80); ("B", 37 # 80)]
  /\ total [("A", 3 # 80); ("B", 37 # 80)] == 1 # 2.
Proof.
  split; [|split; [reflexivity|split; [|split; [|reflexivity]]]].
  - destruct (scripted_draw_pair tape "A" "B") as [E|E];
      exact (sample_pagerank_no_step exact (scripted exact) tape (tl tape)
               two_cycle DAMPING_exact 1 _ eq_refl ltac:(lia) E).
  - destruct (scripted_draw_pair tape "A" "B") as [E|E];
      exact (sample_pagerank_no_step binary64 (scripted binary64) tape
               (tl tape) two_cycle DAMPING_binary64 1 _ eq_refl ltac:(lia) E).
  - vm_compute. reflexivity.
Qed.

(** C4, on the graph with the single page A and no link, with damping
    0.85.  The sampling estimator returns [{A: 0}] for one sample, whatever
    the generator draws, and about [{A: 0.149985}] for 10000 samples; the
    iterative estimator returns after its second pass, for any fuel of at
    least two passes, with [{A: 0.15}]. *)
Theorem single_page_ranks :
  (forall tape,
     sample_pagerank (scripted exact) tape single_page DAMPING_exact 1
     = Ok [("A", 0)])
  /\ sample_pagerank (scripted exact) [] single_page DAMPING_exact SAMPLES
     = Ok [("A", 29997 # 200000)]
  /\ sample_pagerank (scripted binary64) [] single_page DAMPING_binary64
       SAMPLES
     = Ok [("A", 0.14998499999998668%float)]
  /\ (forall fuel,
        iterate_pagerank exact (S (S fuel)) single_page DAMPING_exact
        = Some (Ok [("A", 3 # 20)]))
  /\ (forall fuel,
        iterate_pagerank binary64 (S (S fuel)) single_page DAMPING_binary64
        = Some (Ok [("A", 0.15000000000000002%float)])).
Proof.
  split; [|split; [|split; [|split]]].
  - intro tape.
    exact (sample_pagerank_no_step exact (scripted exact) tape (tl tape)
             single_page DAMPING_exact 1 "A" eq_refl ltac:(lia)
             (scripted_draw_single tape "A")).
  - vm_compute. reflexivity.
  - vm_compute. reflexivity.
  - intro fuel. unfold iterate_pagerank.
    replace (initial_pagerank exact single_page)
      with (@Ok (dict (num exact)) [("A", 1)]) by (vm_compute; reflexivity).
    rewrite (iterate_loop_continue exact single_page DAMPING_exact (S fuel)
               [("A", 1)] [("A", 3 # 20)]) by (vm_compute; reflexivity).
    apply (iterate_loop_stop exact single_page DAMPING_exact fuel _
             [("A", 3 # 20)]); vm_compute; reflexivity.
  - intro fuel. unfold iterate_pagerank.
    replace (initial_pagerank binary64 single_page)
      with (@Ok (dict (num binary64)) [("A", 1%float)])
      by (vm_compute; reflexivity).
    rewrite (iterate_loop_continue binary64 single_page DAMPING_binary64
               (S fuel) [("A", 1%float)]
               [("A", 0.15000000000000002%float)])
      by (vm_compute; reflexivity).
    apply (iterate_loop_stop binary64 single_page DAMPING_binary64 fuel _
             [("A", 0.15000000000000002%float)]); vm_compute; reflexivity.
Qed.

(* ================================================================== *)
(** ** Inputs the specification wants rejected *)

(** The iterative estimator raises nothing on a corpus with unique page
    names, whatever the damping factor and the arithmetic. *)
Lemma iterate_loop_no_raise (A : Arith) (corpus : corpus_t) (d : num A)
  (fuel : nat) (rank : dict (num A)) (e : exn) :
  NoDup (keys corpus) -> keys rank = keys corpus ->
  iterate_loop A fuel corpus d rank <> Some (Raise e).
Proof.
  intro Hnd. revert rank.
  induction fuel as [|fuel IH]; intros rank Hk; cbn [iterate_loop].
  - discriminate.
  - rewrite new_pagerank_closed by (auto; intros i Hi; now rewrite Hk).
    destruct (converged_Ok A (keys corpus) (new_closed A corpus d rank) rank)
      as [[|] Hc].
    + intros p Hp. now rewrite keys_new_closed.
    + intros p Hp. now rewrite Hk.
    + rewrite Hc. discriminate.
    + rewrite Hc. apply IH. apply keys_new_closed.
Qed.

Lemma random_choice_nonempty (A : Arith) (R : Random A) (g : gen R)
  (seq : list string) :
  seq <> [] -> random_choice R g seq = choice R g seq.
Proof.
  destruct seq; [congruence | reflexivity].
Qed.

(** C8, as the code has it.  On the graph without pages the sampling
    estimator raises the [IndexError] of [random.choice] on an empty
    sequence, before any sampling step and whatever the sample count; the
    iterative estimator raises nothing and returns the empty rank vector
    after one pass.  Neither divides. *)
Theorem empty_graph_behaviour (A : Arith) (R : Random A) (g : gen R)
  (d : num A) (n : Z) (fuel : nat) :
  sample_pagerank R g [] d n = Raise IndexError
  /\ iterate_pagerank A (S fuel) [] d = Some (Ok []).
Proof.
  split; reflexivity.
Qed.

(** C8 fails for the iterative estimator: on the empty graph it returns a
    value, the empty rank vector, and no error. *)
Lemma empty_graph_iterate_returns :
  iterate_pagerank exact 1 [] DAMPING_exact = Some (Ok [])
  /\ iterate_pagerank binary64 1 [] DAMPING_binary64 = Some (Ok [])
  /\ ~ (exists e, iterate_pagerank exact 1 [] DAMPING_exact = Some (Raise e)).
Proof.
  split; [reflexivity|]. split; [reflexivity|].
  intros [e H]. discriminate H.
Qed.

(** C9, as the code has it.  No operation looks at the damping factor
    before computing with it.  On a valid graph with at least one page,
    for every damping factor whatsoever: the transition model returns the
    distribution its formulas give; the iterative estimator raises nothing;
    and the sampling estimator, for a sample count below [2^63] in
    magnitude (the range in which the division by the count is modelled),
    raises only what a draw of the [random] module raises. *)
Theorem damping_not_validated (A : Arith) (R : Random A)
  (corpus : corpus_t) (d : num A) :
  valid_graph corpus = true ->
  corpus <> [] ->
  (forall page,
     transition_model A corpus page d = Ok (transition_closed A corpus page d))
  /\ (forall fuel e, iterate_pagerank A fuel corpus d <> Some (Raise e))
  /\ (forall g n e,
        (Z.abs n < 2 ^ 63)%Z ->
        sample_pagerank R g corpus d n = Raise e ->
        (exists g', choice R g' (keys corpus) = Raise e)
        \/ (exists g' population weights,
              choices R g' population weights = Raise e)).
Proof.
  intros Hv Hne. pose proof (valid_graph_keys corpus Hv) as Hnd.
  split; [|split].
  - intro page. now apply transition_model_closed.
  - intros fuel e. unfold iterate_pagerank.
    rewrite initial_pagerank_closed by exact Hnd.
    apply iterate_loop_no_raise; [exact Hnd | apply keys_uniform].
  - intros g n e _. unfold sample_pagerank.
    rewrite (zero_loop A corpus Hv). cbn [bind].
    rewrite random_choice_nonempty
      by (destruct corpus; [congruence | discriminate]).
    destruct (choice R g (keys corpus)) as [[x0 g0]|e0] eqn:Ech; cbn [bind].
    + destruct (for_range (Z.to_nat (n - 1)) (sample_step R corpus d n)
                  (uniform (keys corpus) (of_int A 0), x0, g0))
        as [[[acc x] g1]|e1] eqn:Erun; cbn [bind]; [discriminate|].
      intros [= ->]. right.
      apply (sample_loop_raise A R corpus d n Hv _ _ _ _ e) in Erun; auto.
      * destruct (Z.to_nat (n - 1)) eqn:E; [now left | right; lia].
      * apply keys_uniform.
    + intros [= ->]. left. now exists g.
Qed.

Lemma damping_not_validated_witness :
  (forall page,
     transition_model exact two_cycle page (3 # 2)
     = Ok (transition_closed exact two_cycle page (3 # 2)))
  /\ (forall fuel e,
        iterate_pagerank exact fuel two_cycle (3 # 2) <> Some (Raise e))
  /\ (forall g n e,
        (Z.abs n < 2 ^ 63)%Z ->
        sample_pagerank (scripted exact) g two_cycle (3 # 2) n = Raise e ->
        (exists g', choice (scripted exact) g' (keys two_cycle) = Raise e)
        \/ (exists g' population weights,
              choices (scripted exact) g' population weights = Raise e)).
Proof.
  apply (damping_not_validated exact (scripted exact) two_cycle (3 # 2)).
  - reflexivity.
  - discriminate.
Defined.

(** C9 fails: with damping 1.5 on the two-page graph in which A and B link
    to each other, the transition model and both estimators return values,
    among them a negative probability. *)
Lemma damping_above_one_accepted :
  transition_model exact two_cycle "A" (3 # 2)
  = Ok [("A", -1 # 4); ("B", 5 # 4)]
  /\ transition_model binary64 two_cycle "A" 1.5%float
     = Ok [("A", (-0.25)%float); ("B", 1.25%float)]
  /\ iterate_pagerank exact 1 two_cycle (3 # 2)
     = Some (Ok [("A", 1 # 2); ("B", 1 # 2)])
  /\ sample_pagerank (scripted exact) [] two_cycle (3 # 2) 2
     = Ok [("A", -1 # 8); ("B", 5 # 8)].
Proof.
  repeat split; vm_compute; reflexivity.
Qed.

(* ================================================================== *)
(** ** Probability mass *)

Lemma sum_over_ext (f g : string -> Q) (ks : list string) :
  (forall k, In k ks -> f k == g k) -> sum_over f ks == sum_over g ks.
Proof.
  unfold sum_over. induction ks as [|k ks IH]; intro H; simpl.
  - reflexivity.
  - rewrite (H k (or_introl eq_refl)), IH; [reflexivity|].
    intros q Hq. apply H. now right.
Qed.

Lemma sum_over_plus (f g : string -> Q) (ks : list string) :
  sum_over (fun k => f k + g k) ks == sum_over f ks + sum_over g ks.
Proof.
  unfold sum_over. induction ks as [|k ks IH]; simpl.
  - ring.
  - rewrite IH. ring.
Qed.

Lemma sum_over_scale (f : string -> Q) (c : Q) (ks : list string) :
  sum_over (fun k => f k * c) ks == sum_over f ks * c.
Proof.
  unfold sum_over. induction ks as [|k ks IH]; simpl.
  - ring.
  - rewrite IH. ring.
Qed.

Lemma inject_len_cons {X : Type} (x : X) (l : list X) :
  inject_Z (len (x :: l)) == 1 + inject_Z (len l).
Proof.
  unfold len. cbn [List.length]. rewrite Nat2Z.inj_succ, <- Z.add_1_l.
  now rewrite inject_Z_plus.
Qed.

Lemma sum_over_const (c : Q) (ks : list string) :
  sum_over (fun _ => c) ks == inject_Z (len ks) * c.
Proof.
  induction ks as [|k ks IH].
  - unfold sum_over, len. simpl. ring.
  - rewrite inject_len_cons. unfold sum_over in *. cbn [map fold_right].
    rewrite IH. ring.
Qed.

Lemma sum_over_zero (ks : list string) (f : string -> Q) :
  (forall k, In k ks -> f k == 0) -> sum_over f ks == 0.
Proof.
  intro H. rewrite (sum_over_ext f (fun _ => 0) ks H), sum_over_const. ring.
Qed.

(** The mass [c] put on the one page [l] of [ks]. *)
Lemma sum_over_point (l : string) (c : Q) (ks : list string) :
  NoDup ks -> In l ks ->
  sum_over (fun k => if String.eqb k l then c else 0) ks == c.
Proof.
  induction ks as [|k ks IH]; intros Hnd Hin; [contradiction|].
  inversion Hnd as [|? ? Hk Hnd']; subst.
  unfold sum_over in *. cbn [map fold_right].
  destruct (String.eqb_spec k l) as [->|Hne].
  - fold (sum_over (fun k => if String.eqb k l then c else 0) ks).
    rewrite sum_over_zero; [ring|].
    intros q Hq. destruct (String.eqb_spec q l) as [->|]; [contradiction|].
    reflexivity.
  - rewrite IH; [ring | assumption | destruct Hin; [congruence|assumption]].
Qed.

(** The mass [c] put on every page of [links]. *)
Lemma sum_over_links (links : list string) (c : Q) (ks : list string) :
  NoDup ks -> NoDup links -> (forall q, In q links -> In q ks) ->
  sum_over (fun k => if contains links k then c else 0) ks
  == inject_Z (len links) * c.
Proof.
  intros Hks. induction links as [|l links IH]; intros Hnd Hsub.
  - rewrite sum_over_zero; [unfold len; simpl; ring | reflexivity].
  - inversion Hnd as [|? ? Hl Hnd']; subst.
    rewrite inject_len_cons.
    rewrite (sum_over_ext _
               (fun k => (if String.eqb k l then c else 0)
                         + (if contains links k then c else 0))).
    + rewrite sum_over_plus, sum_over_point, IH; auto using in_eq, in_cons.
      ring.
    + intros k _. cbn [contains existsb].
      fold (contains links k).
      destruct (String.eqb_spec k l) as [->|Hne]; cbn [orb].
      * apply contains_not_In in Hl. rewrite Hl. ring.
      * ring.
Qed.

Lemma value_of_head (k : string) (v : Q) (d : dict Q) :
  value_of ((k, v) :: d) k = v.
Proof.
  unfold value_of. simpl. now rewrite String.eqb_refl.
Qed.

Lemma total_reads (d : dict Q) :
  NoDup (keys d) -> total d = sum_over (value_of d) (keys d).
Proof.
  unfold total, sum_over. intro Hnd. f_equal.
  induction d as [|[k v] d IH]; [reflexivity|].
  inversion Hnd as [|? ? Hk Hnd']; subst.
  cbn [values keys map fst snd]. rewrite value_of_head. f_equal.
  unfold values, keys in IH. rewrite IH by assumption.
  apply map_ext_in. intros q Hq. unfold value_of. simpl.
  destruct (String.eqb_spec q k) as [->|]; [contradiction | reflexivity].
Qed.

(** In rational arithmetic the distribution of the transition model sums
    to 1 for a page with links, and to [1 - damping] for a page without
    links or outside the corpus. *)
Lemma transition_total (corpus : corpus_t) (page : string) (damping : Q) :
  valid_graph corpus = true -> corpus <> [] ->
  total (transition_closed exact corpus page damping)
  == if has_links corpus page then 1 else 1 - damping.
Proof.
  intros Hv Hne. pose proof (valid_graph_keys corpus Hv) as Hnd.
  assert (HN : ~ inject_Z (len (keys corpus)) == 0).
  { destruct corpus as [|[p0 l0] rest]; [congruence|].
    unfold len. simpl List.length. rewrite Nat2Z.inj_succ.
    unfold Qeq. simpl. lia. }
  pose proof (keys_transition_closed exact corpus damping page) as Hk.
  exact_ops. rewrite total_reads by now rewrite Hk. rewrite Hk. clear Hk.
  unfold transition_closed, has_links.
  destruct (lookup corpus page) as [[|l ls]|] eqn:El.
  - rewrite (sum_over_ext _
               (fun _ => (1 - damping) / inject_Z (len (keys corpus)))).
    + rewrite sum_over_const. now field.
    + intros k Hk. unfold value_of. rewrite lookup_uniform.
      apply contains_In in Hk. rewrite Hk. exact_ops.
      now rewrite !Qred_correct.
  - destruct (valid_graph_links corpus page (l :: ls) Hv El) as [Hl Hsub].
    assert (HL : ~ inject_Z (len (l :: ls)) == 0).
    { unfold len. simpl List.length. rewrite Nat2Z.inj_succ.
      unfold Qeq. simpl. lia. }
    rewrite (sum_over_ext _
               (fun k => (1 - damping) / inject_Z (len (keys corpus))
                         + (if contains (l :: ls) k
                            then damping / inject_Z (len (l :: ls))
                            else 0))).
    + rewrite sum_over_plus, sum_over_const, sum_over_links by assumption.
      now field.
    + intros k Hk. unfold value_of. rewrite (lookup_bump exact).
      rewrite lookup_uniform.
      apply contains_In in Hk. rewrite Hk. cbn [option_map].
      destruct (contains (l :: ls) k); exact_ops;
        rewrite !Qred_correct; change (inject_Z 1) with 1;
        unfold Qdiv; ring.
  - rewrite (sum_over_ext _
               (fun _ => (1 - damping) / inject_Z (len (keys corpus)))).
    + rewrite sum_over_const. now field.
    + intros k Hk. unfold value_of. rewrite lookup_uniform.
      apply contains_In in Hk. rewrite Hk. exact_ops.
      now rewrite !Qred_correct.
Qed.

Lemma surf_keys (R : Random exact) (corpus : corpus_t) (damping : Q)
  (g : gen R) (x : string) (k : nat) (ds : list (dict Q)) :
  valid_graph corpus = true ->
  surf R corpus damping g x k ds ->
  Forall (fun dist => keys dist = keys corpus) ds.
Proof.
  intros Hv Hs.
  induction Hs as [g x | g g' x y dist k ds Ht Hc Hs IH]; constructor; auto.
  rewrite (transition_model_closed exact corpus x damping Hv) in Ht.
  injection Ht as <-. apply (keys_transition_closed exact).
Qed.

Lemma accumulated_total (ds : list (dict Q)) (n : Z) (ks : list string) :
  NoDup ks -> Forall (fun dist => keys dist = ks) ds ->
  sum_over (accumulated ds n) ks
  == fold_right Qplus 0 (map total ds) * (1 / inject_Z n).
Proof.
  intros Hnd Hk. induction Hk as [|dist ds Hd Hk IH].
  - rewrite sum_over_zero; [simpl; ring | reflexivity].
  - rewrite (sum_over_ext _
               (fun p => value_of dist p * (1 / inject_Z n)
                         + accumulated ds n p))
      by (intros; reflexivity).
    rewrite sum_over_plus, sum_over_scale, IH.
    cbn [map fold_right]. rewrite total_reads by now rewrite Hd.
    rewrite Hd. ring.
Qed.

(** In rational arithmetic the values returned by the sampling estimator
    sum to the masses of the distributions met, divided by the sample
    count. *)
Lemma sample_pagerank_total (R : Random exact) (g g0 : gen R)
  (corpus : corpus_t) (damping : Q) (n : Z) (x0 : string)
  (ds : list (dict Q)) :
  valid_graph corpus = true ->
  random_choice R g (keys corpus) = Ok (x0, g0) ->
  surf R corpus damping g0 x0 (Z.to_nat (n - 1)) ds ->
  exists r,
    sample_pagerank R g corpus damping n = Ok r
    /\ total r == fold_right Qplus 0 (map total ds) * (1 / inject_Z n).
Proof.
  intros Hv Hc Hs. pose proof (valid_graph_keys corpus Hv) as Hnd.
  destruct (sample_loop R corpus damping n Hv _ _ _ _ Hs
              (uniform (keys corpus) (of_int exact 0)))
    as (acc & x' & g' & Hrun & Hk & Hval).
  - destruct (Z.to_nat (n - 1)) eqn:E; [now left|right; lia].
  - apply keys_uniform.
  - exists acc. split.
    + unfold sample_pagerank.
      rewrite (zero_loop exact corpus Hv). cbn [bind].
      rewrite Hc. cbn [bind]. exact_ops. now rewrite Hrun.
    + exact_ops. rewrite total_reads by now rewrite Hk.
      rewrite Hk, <- (accumulated_total ds n (keys corpus) Hnd
                        (surf_keys R corpus damping _ _ _ _ Hv Hs)).
      apply sum_over_ext. intros p Hp. rewrite (Hval p Hp).
      unfold value_of. rewrite lookup_uniform.
      apply contains_In in Hp. rewrite Hp. ring.
Qed.

(** Even when every distribution met sums to 1, the values returned for a
    sample count [n >= 1] sum to [(n - 1) / n], not to 1. *)
Lemma sample_pagerank_total_short (R : Random exact) (g g0 : gen R)
  (corpus : corpus_t) (damping : Q) (n : Z) (x0 : string)
  (ds : list (dict Q)) :
  valid_graph corpus = true -> (1 <= n)%Z ->
  random_choice R g (keys corpus) = Ok (x0, g0) ->
  surf R corpus damping g0 x0 (Z.to_nat (n - 1)) ds ->
  Forall (fun dist => total dist == 1) ds ->
  exists r,
    sample_pagerank R g corpus damping n = Ok r
    /\ total r == (inject_Z n - 1) / inject_Z n.
Proof.
  intros Hv Hn Hc Hs Hone.
  destruct (sample_pagerank_total R g g0 corpus damping n x0 ds Hv Hc Hs)
    as (r & Hr & Ht).
  exists r. split; [exact Hr|]. rewrite Ht.
  assert (Hlen : List.length ds = Z.to_nat (n - 1))
    by (clear -Hs; induction Hs; simpl; congruence).
  assert (Hsum : fold_right Qplus 0 (map total ds)
                 == inject_Z (Z.of_nat (List.length ds))).
  { clear -Hone. induction Hone as [|dist ds H1 _ IH].
    - reflexivity.
    - cbn [map fold_right List.length].
      rewrite H1, IH, Nat2Z.inj_succ, <- Z.add_1_l, inject_Z_plus.
      reflexivity. }
  rewrite Hsum, Hlen, Z2Nat.id by lia.
  unfold Z.sub. rewrite inject_Z_plus, inject_Z_opp. unfold Qdiv, Qminus.
  change (inject_Z 1) with 1. ring.
Qed.

(** The values of the transition model in plain rational arithmetic: the
    base term, plus the share of the damping mass on the linked pages. *)
Lemma transition_value (corpus : corpus_t) (page q : string) (damping : Q) :
  In q (keys corpus) ->
  value_of (transition_closed exact corpus page damping) q
  == (1 - damping) / inject_Z (len (keys corpus))
     + (if contains (links_of corpus page) q
        then damping / inject_Z (len (links_of corpus page))
        else 0).
Proof.
  intro Hq. apply contains_In in Hq.
  unfold value_of, transition_closed, links_of.
  destruct (lookup corpus page) as [[|l ls]|].
  - rewrite lookup_uniform, Hq. cbn [contains existsb]. exact_ops.
    rewrite !Qred_correct. change (inject_Z 1) with 1. ring.
  - rewrite (lookup_bump exact), lookup_uniform, Hq. cbn [option_map].
    destruct (contains (l :: ls) q); exact_ops;
      rewrite !Qred_correct; change (inject_Z 1) with 1; ring.
  - rewrite lookup_uniform, Hq. cbn [contains existsb]. exact_ops.
    rewrite !Qred_correct. change (inject_Z 1) with 1. ring.
Qed.

(* ================================================================== *)
(** ** The crawler builds a valid graph *)

Lemma to_set_In (l : list string) (x : string) : In x (to_set l) <-> In x l.
Proof.
  induction l as [|y l IH]; simpl; [tauto|].
  destruct (contains l y) eqn:E.
  - rewrite IH. apply contains_In in E. split; [tauto|].
    intros [<-|H]; assumption.
  - simpl. rewrite IH. tauto.
Qed.

Lemma to_set_NoDup (l : list string) : NoDup (to_set l).
Proof.
  induction l as [|y l IH]; simpl; [constructor|].
  destruct (contains l y) eqn:E; [exact IH|].
  constructor; [|exact IH]. rewrite to_set_In. now apply contains_not_In.
Qed.

Lemma discard_In (s : list string) (x y : string) :
  In y (discard s x) <-> In y s /\ y <> x.
Proof.
  unfold discard. rewrite filter_In, negb_true_iff, String.eqb_neq. tauto.
Qed.

Lemma keys_setitem_present {V : Type} (d : dict V) (k : string) (v : V) :
  In k (keys d) -> keys (setitem d k v) = keys d.
Proof.
  induction d as [|[k' v'] d IH]; simpl; intro H; [contradiction|].
  destruct (String.eqb_spec k k') as [->|Hn]; [reflexivity|].
  simpl. f_equal. apply IH. destruct H; [congruence | assumption].
Qed.

Lemma keys_setitem_In {V : Type} (d : dict V) (k q : string) (v : V) :
  In q (keys (setitem d k v)) <-> q = k \/ In q (keys d).
Proof.
  destruct (in_dec string_dec k (keys d)) as [Hi|Hn].
  - rewrite keys_setitem_present by assumption. split; [tauto|].
    intros [->|H]; assumption.
  - rewrite setitem_fresh by assumption. unfold keys. rewrite map_app, in_app_iff.
    simpl. split; [intros [H|[H|[]]]; auto | intros [H|H]; auto].
Qed.

Lemma NoDup_snoc {X : Type} (l : list X) (x : X) :
  NoDup l -> ~ In x l -> NoDup (l ++ [x]).
Proof.
  induction l as [|y l IH]; simpl; intros Hnd Hx.
  - constructor; [tauto | constructor].
  - inversion Hnd as [|? ? Hy Hnd']; subst. constructor.
    + rewrite in_app_iff. simpl. intros [H|[H|[]]]; [tauto|].
      apply Hx. now left.
    + apply IH; tauto.
Qed.

Lemma keys_setitem_NoDup {V : Type} (d : dict V) (k : string) (v : V) :
  NoDup (keys d) -> NoDup (keys (setitem d k v)).
Proof.
  intro Hnd. destruct (in_dec string_dec k (keys d)) as [Hi|Hn].
  - now rewrite keys_setitem_present.
  - rewrite setitem_fresh by assumption. unfold keys. rewrite map_app. simpl.
    now apply NoDup_snoc.
Qed.

Lemma lookup_setitem_other {V : Type} (d : dict V) (k q : string) (v : V) :
  q <> k -> lookup (setitem d k v) q = lookup d q.
Proof.
  intro Hne. induction d as [|[k' v'] d IH]; simpl.
  - destruct (String.eqb_spec q k); [contradiction | reflexivity].
  - destruct (String.eqb_spec k k') as [->|Hn]; simpl.
    + destruct (String.eqb_spec q k'); [contradiction | reflexivity].
    + destruct (String.eqb q k'); [reflexivity | exact IH].
Qed.

Lemma Forall_setitem {V : Type} (P : string * V -> Prop) (d : dict V)
  (k : string) (v : V) :
  Forall P d -> P (k, v) -> Forall P (setitem d k v).
Proof.
  intros Hd Hk. induction Hd as [|[k' v'] d Hkv Hd IH]; simpl.
  - now constructor.
  - destruct (String.eqb_spec k k') as [->|Hn]; constructor; auto.
Qed.

Lemma In_values {V : Type} (d : dict V) (v : V) :
  In v (values d) -> exists k, In (k, v) d.
Proof.
  unfold values. rewrite in_map_iff. intros [[k v'] [E H]]. simpl in E.
  subst. now exists k.
Qed.

(** The second loop of [crawl]: every link set keeps the names that are
    pages. *)
Lemma filter_loop (ks : list string) (d : corpus_t) :
  NoDup ks -> NoDup (keys d) -> (forall k, In k ks -> In k (keys d)) ->
  for_each ks
    (fun filename pages' =>
       links <- getitem pages' filename ;;
       Ok (setitem pages' filename (filter (contains (keys pages')) links)))
    d
  = Ok (map (fun kv => (fst kv,
                        if contains ks (fst kv)
                        then filter (contains (keys d)) (snd kv)
                        else snd kv)) d).
Proof.
  revert d. induction ks as [|k ks IH]; intros d Hks Hd Hin; simpl.
  - f_equal. rewrite <- (map_id d) at 1. apply map_ext. now intros [k v].
  - inversion Hks as [|? ? Hk Hks']; subst.
    destruct (lookup_In d k (Hin k (or_introl eq_refl))) as [old Hold].
    unfold getitem at 1. rewrite Hold. cbn [bind].
    rewrite setitem_present by auto using in_eq.
    set (d' := map (fun kv => (fst kv,
                               if String.eqb (fst kv) k
                               then filter (contains (keys d)) old
                               else snd kv)) d).
    assert (Hk' : keys d' = keys d)
      by (unfold d', keys; rewrite map_map; reflexivity).
    rewrite IH; auto.
    + rewrite Hk'. f_equal. unfold d'. rewrite map_map. apply map_ext_in.
      intros [k2 v2] H2. cbn [fst snd contains existsb].
      fold (contains ks k2).
      destruct (String.eqb_spec k2 k) as [->|Hne]; cbn [orb].
      * apply contains_not_In in Hk. rewrite Hk.
        rewrite (lookup_of_In d k v2 Hd H2) in Hold. now injection Hold as ->.
      * reflexivity.
    + now rewrite Hk'.
    + intros q Hq. rewrite Hk'. apply Hin. now right.
Qed.

Section CrawlerFacts.

Variable findall : string -> list string.

Let step (pages : corpus_t) (entry : string * string) : corpus_t :=
  if negb (endswith (fst entry) ".html") then pages
  else setitem pages (fst entry)
         (discard (to_set (findall (snd entry))) (fst entry)).

Lemma extracted_fold (directory : list (string * string)) :
  extracted findall directory = fold_left step directory [].
Proof. reflexivity. Qed.

Lemma step_keys_NoDup (directory : list (string * string)) (acc : corpus_t) :
  NoDup (keys acc) -> NoDup (keys (fold_left step directory acc)).
Proof.
  revert acc. induction directory as [|e dir IH]; intros acc H; simpl.
  - exact H.
  - apply IH. unfold step. destruct (negb (endswith (fst e) ".html")).
    + exact H.
    + now apply keys_setitem_NoDup.
Qed.

Lemma step_keys_In (directory : list (string * string)) (acc : corpus_t)
  (f : string) :
  In f (keys (fold_left step directory acc))
  <-> In f (keys acc)
      \/ (endswith f ".html" = true /\ In f (map fst directory)).
Proof.
  revert acc. induction directory as [|e dir IH]; intro acc; simpl.
  - tauto.
  - rewrite IH. unfold step.
    destruct (endswith (fst e) ".html") eqn:E; cbn [negb].
    + rewrite keys_setitem_In. split.
      * intros [[->|H]|[H1 H2]]; auto.
      * intros [H|[H1 [->|H2]]]; auto.
    + split.
      * intros [H|[H1 H2]]; auto.
      * intros [H|[H1 [<-|H2]]]; auto. congruence.
Qed.

Lemma step_links_wf (directory : list (string * string)) (acc : corpus_t) :
  Forall (fun kv => NoDup (snd kv) /\ ~ In (fst kv) (snd kv)) acc ->
  Forall (fun kv => NoDup (snd kv) /\ ~ In (fst kv) (snd kv))
    (fold_left step directory acc).
Proof.
  revert acc. induction directory as [|e dir IH]; intros acc H; simpl.
  - exact H.
  - apply IH. unfold step. destruct (negb (endswith (fst e) ".html")).
    + exact H.
    + apply Forall_setitem; [exact H|]. cbn [fst snd]. split.
      * unfold discard. apply NoDup_filter, to_set_NoDup.
      * rewrite discard_In. tauto.
Qed.

Lemma step_lookup (directory : list (string * string)) (acc : corpus_t)
  (f c : string) :
  NoDup (map fst directory) -> In (f, c) directory ->
  endswith f ".html" = true ->
  lookup (fold_left step directory acc) f
  = Some (discard (to_set (findall c)) f).
Proof.
  revert acc. induction directory as [|e dir IH]; intros acc Hnd Hin He;
    [contradiction|].
  simpl in Hnd. inversion Hnd as [|? ? Hfresh Hnd']; subst. simpl.
  destruct Hin as [->|Hin].
  - unfold step at 2. cbn [fst snd]. rewrite He. cbn [negb].
    assert (Hkeep : forall d (acc' : corpus_t),
               ~ In f (map fst d) ->
               lookup (fold_left step d acc') f = lookup acc' f).
    { clear. induction d as [|e d IH]; intros acc' Hf; simpl; [reflexivity|].
      rewrite IH by (simpl in Hf; tauto). unfold step.
      destruct (negb (endswith (fst e) ".html")); [reflexivity|].
      apply lookup_setitem_other. simpl in Hf. intro E. apply Hf. now left. }
    rewrite Hkeep by exact Hfresh. apply lookup_setitem_same.
  - now apply IH.
Qed.

(** The first loop of [crawl] stops at the first entry named [*.html]
    that cannot be read, and otherwise fills [pages]. *)
Lemma extract_loop (entries : list (string * result string))
  (acc : corpus_t) :
  for_each entries
    (fun entry pages =>
       let filename := fst entry in
       if negb (endswith filename ".html") then Ok pages
       else
         contents <- snd entry ;;
         let links := findall contents in
         Ok (setitem pages filename (discard (to_set links) filename)))
    acc
  = match first_failure entries with
    | Some e => Raise e
    | None => Ok (fold_left step (plain entries) acc)
    end.
Proof.
  revert acc. induction entries as [|[f c] rest IH]; intro acc; simpl.
  - reflexivity.
  - unfold step at 2. cbn [fst snd].
    destruct (endswith f ".html"); cbn [negb bind].
    + destruct c as [contents|e]; cbn [bind]; [apply IH | reflexivity].
    + apply IH.
Qed.

(** [crawl] on a directory all of whose [*.html] entries can be read. *)
Lemma crawl_closed (entries : list (string * result string)) :
  first_failure entries = None ->
  crawl findall (Ok entries)
  = Ok (map (fun kv =>
               (fst kv,
                filter (contains (keys (extracted findall (plain entries))))
                  (snd kv)))
          (extracted findall (plain entries))).
Proof.
  intro Hf. unfold crawl. cbn [bind]. rewrite extract_loop, Hf.
  rewrite <- extracted_fold. cbn [bind].
  pose proof (step_keys_NoDup (plain entries) [] (NoDup_nil _)) as Hnd.
  rewrite <- extracted_fold in Hnd.
  rewrite filter_loop; auto.
  - f_equal. apply map_ext_in. intros [k v] Hkv. cbn [fst snd].
    replace (contains (keys (extracted findall (plain entries))) k) with true;
      [reflexivity|].
    symmetry. apply contains_In. change k with (fst (k, v)).
    now apply in_map.
Qed.

Lemma crawl_failure (entries : list (string * result string)) (e : exn) :
  first_failure entries = Some e -> crawl findall (Ok entries) = Raise e.
Proof.
  intro Hf. unfold crawl. cbn [bind]. now rewrite extract_loop, Hf.
Qed.

(** A corpus returned by [crawl] comes from a listing that succeeded and
    from [*.html] entries that could all be read. *)
Lemma crawl_returned (directory : result (list (string * result string)))
  (corpus : corpus_t) :
  crawl findall directory = Ok corpus ->
  exists entries,
    directory = Ok entries
    /\ first_failure entries = None
    /\ corpus
       = map (fun kv =>
                (fst kv,
                 filter (contains (keys (extracted findall (plain entries))))
                   (snd kv)))
           (extracted findall (plain entries)).
Proof.
  destruct directory as [entries|e]; [|discriminate].
  destruct (first_failure entries) as [e|] eqn:Hf.
  - rewrite (crawl_failure entries e Hf). discriminate.
  - rewrite (crawl_closed entries Hf). intros [= <-]. now exists entries.
Qed.

End CrawlerFacts.

Lemma plain_names (entries : list (string * result string)) :
  map fst (plain entries) = map fst entries.
Proof.
  unfold plain. rewrite map_map. reflexivity.
Qed.

(** The value of [crawl] is a valid graph without self links. *)
Lemma crawled_valid (findall : string -> list string)
  (directory : list (string * string)) :
  let E := extracted findall directory in
  let corpus :=
    map (fun kv => (fst kv, filter (contains (keys E)) (snd kv))) E in
  valid_graph corpus = true
  /\ forall page links, lookup corpus page = Some links -> ~ In page links.
Proof.
  intros E corpus.
  pose proof (step_keys_NoDup findall directory [] (NoDup_nil _)) as Hnd.
  pose proof (step_links_wf findall directory [] (Forall_nil _)) as Hwf.
  rewrite <- extracted_fold in Hnd, Hwf. fold E in Hnd, Hwf.
  rewrite Forall_forall in Hwf.
  assert (Hk : keys corpus = keys E)
    by exact (keys_map_values (fun _ v => filter (contains (keys E)) v) E).
  split.
  - unfold valid_graph. rewrite Hk. apply andb_true_iff. split.
    + now apply distinct_NoDup.
    + apply forallb_forall. intros links Hl.
      unfold values, corpus in Hl. rewrite map_map in Hl. cbn [snd] in Hl.
      apply in_map_iff in Hl. destruct Hl as [[k v] [<- Hkv]]. cbn [snd].
      apply andb_true_iff. split.
      * apply distinct_NoDup, NoDup_filter. exact (proj1 (Hwf _ Hkv)).
      * apply forallb_forall. intros l Hl. apply filter_In in Hl. tauto.
  - intros page links Hl. unfold corpus in Hl.
    rewrite (lookup_map_values (fun _ v => filter (contains (keys E)) v))
      in Hl.
    destruct (lookup E page) as [v|] eqn:Ev; [|discriminate].
    injection Hl as <-. rewrite filter_In. intros [Hself _].
    assert (Hin : In (page, v) E).
    { clear -Ev. induction E as [|[k' v'] E IH]; simpl in *; [discriminate|].
      destruct (String.eqb_spec page k') as [->|]; [left; congruence|].
      right. now apply IH. }
    exact (proj2 (Hwf _ Hin) Hself).
Qed.

(** X1. Every corpus [crawl] returns is a valid graph: page names are
    unique, link sets are duplicate free, every link names a page of the
    corpus, and no page links to itself; this whatever the anchors found
    in the files. *)
Theorem crawl_valid_graph (findall : string -> list string)
  (directory : result (list (string * result string)))
  (corpus : corpus_t) :
  crawl findall directory = Ok corpus ->
  valid_graph corpus = true
  /\ forall page links,
       lookup corpus page = Some links -> ~ In page links.
Proof.
  intro Hc.
  destruct (crawl_returned findall directory corpus Hc)
    as (entries & _ & _ & ->).
  apply crawled_valid.
Qed.

Lemma crawl_valid_graph_witness :
  valid_graph [("1.html", ["2.html"]); ("2.html", [])] = true
  /\ forall page links,
       lookup [("1.html", ["2.html"]); ("2.html", [])] page = Some links ->
       ~ In page links.
Proof.
  apply (crawl_valid_graph
           (fun contents => if String.eqb contents "<a href=2.html>"
                            then ["2.html"; "3.html"; "2.html"; "1.html"]
                            else [])
           (Ok [("1.html", Ok "<a href=2.html>"); ("notes", Raise OSError);
                ("2.html", Ok "")])).
  reflexivity.
Defined.

(** X2. The pages of a corpus [crawl] returns are exactly the entries of
    the listing whose name ends in [.html]. *)
Theorem crawl_pages (findall : string -> list string)
  (directory : result (list (string * result string)))
  (corpus : corpus_t) :
  crawl findall directory = Ok corpus ->
  exists entries,
    directory = Ok entries
    /\ forall f,
         In f (keys corpus)
         <-> endswith f ".html" = true /\ In f (map fst entries).
Proof.
  intro Hc.
  destruct (crawl_returned findall directory corpus Hc)
    as (entries & Hd & _ & ->).
  exists entries. split; [exact Hd|]. intro f.
  rewrite (keys_map_values
             (fun _ v =>
                filter (contains (keys (extracted findall (plain entries))))
                  v)).
  rewrite extracted_fold, step_keys_In, plain_names. simpl. tauto.
Qed.

Lemma crawl_pages_witness :
  exists entries,
    Ok [("1.html", Ok "<a href=2.html>"); ("notes", Raise OSError);
        ("2.html", Ok "")] = Ok entries
    /\ forall f,
         In f (keys [("1.html", ["2.html"]); ("2.html", [])])
         <-> endswith f ".html" = true /\ In f (map fst entries).
Proof.
  apply (crawl_pages
           (fun contents => if String.eqb contents "<a href=2.html>"
                            then ["2.html"; "3.html"; "2.html"; "1.html"]
                            else [])
           (Ok [("1.html", Ok "<a href=2.html>"); ("notes", Raise OSError);
                ("2.html", Ok "")])).
  reflexivity.
Defined.

(** X3. In a corpus [crawl] returns from a listing with distinct names,
    the links of a page are the anchors found in its file that name
    another page of the corpus. *)
Theorem crawl_links (findall : string -> list string)
  (entries : list (string * result string)) (corpus : corpus_t)
  (f c : string) :
  crawl findall (Ok entries) = Ok corpus ->
  distinct (map fst entries) = true ->
  In (f, Ok c) entries ->
  endswith f ".html" = true ->
  exists links,
    lookup corpus f = Some links
    /\ forall l,
         In l links <-> In l (findall c) /\ l <> f /\ In l (keys corpus).
Proof.
  intros Hc Hd Hin He. apply distinct_NoDup in Hd.
  destruct (crawl_returned findall (Ok entries) corpus Hc)
    as (entries' & [= <-] & _ & ->).
  set (E := extracted findall (plain entries)).
  exists (filter (contains (keys E)) (discard (to_set (findall c)) f)).
  assert (Hin' : In (f, c) (plain entries)).
  { unfold plain. apply in_map_iff. exists (f, Ok c). now split. }
  rewrite <- plain_names in Hd.
  split.
  - rewrite (lookup_map_values (fun _ v => filter (contains (keys E)) v)).
    unfold E. rewrite extracted_fold.
    now rewrite (step_lookup findall (plain entries) [] f c Hd Hin' He).
  - intro l. rewrite filter_In, discard_In, to_set_In, contains_In.
    rewrite (keys_map_values (fun _ v => filter (contains (keys E)) v)).
    tauto.
Qed.

Lemma crawl_links_witness :
  exists links,
    lookup [("1.html", ["2.html"]); ("2.html", [])] "1.html" = Some links
    /\ forall l,
         In l links
         <-> In l ((fun contents => if String.eqb contents "<a href=2.html>"
                                    then ["2.html"; "3.html"; "2.html";
                                          "1.html"]
                                    else []) "<a href=2.html>")
             /\ l <> "1.html"
             /\ In l (keys [("1.html", ["2.html"]); ("2.html", [])]).
Proof.
  apply (crawl_links
           (fun contents => if String.eqb contents "<a href=2.html>"
                            then ["2.html"; "3.html"; "2.html"; "1.html"]
                            else [])
           [("1.html", Ok "<a href=2.html>"); ("notes", Raise OSError);
            ("2.html", Ok "")]
           [("1.html", ["2.html"]); ("2.html", [])]
           "1.html" "<a href=2.html>").
  - reflexivity.
  - reflexivity.
  - simpl. auto.
  - reflexivity.
Defined.

(** X4. Every corpus [crawl] returns is accepted by the estimators: on it
    the transition model returns a distribution for every page name and
    every damping factor, and the iterative estimator raises nothing. *)
Theorem crawl_then_rank (A : Arith) (findall : string -> list string)
  (directory : result (list (string * result string)))
  (corpus : corpus_t) (page : string) (d : num A) :
  crawl findall directory = Ok corpus ->
  transition_model A corpus page d = Ok (transition_closed A corpus page d)
  /\ forall fuel e, iterate_pagerank A fuel corpus d <> Some (Raise e).
Proof.
  intro Hc.
  destruct (crawl_returned findall directory corpus Hc)
    as (entries & _ & _ & ->).
  destruct (crawled_valid findall (plain entries)) as [Hv _].
  split.
  - now apply transition_model_closed.
  - intros fuel e. unfold iterate_pagerank.
    pose proof (valid_graph_keys _ Hv) as Hnd.
    rewrite initial_pagerank_closed by exact Hnd.
    apply iterate_loop_no_raise; [exact Hnd | apply keys_uniform].
Qed.

Lemma crawl_then_rank_witness :
  transition_model exact [("1.html", ["2.html"]); ("2.html", [])] "1.html"
    DAMPING_exact
  = Ok (transition_closed exact [("1.html", ["2.html"]); ("2.html", [])]
          "1.html" DAMPING_exact)
  /\ forall fuel e,
       iterate_pagerank exact fuel [("1.html", ["2.html"]); ("2.html", [])]
         DAMPING_exact
       <> Some (Raise e).
Proof.
  apply (crawl_then_rank exact
           (fun contents => if String.eqb contents "<a href=2.html>"
                            then ["2.html"; "3.html"; "2.html"; "1.html"]
                            else [])
           (Ok [("1.html", Ok "<a href=2.html>"); ("notes", Raise OSError);
                ("2.html", Ok "")])).
  reflexivity.
Defined.

(** X18. [crawl] returns a corpus exactly when the listing succeeds and
    every entry named [*.html] can be read; otherwise it raises the
    exception of the listing, or that of the first such entry that cannot
    be read.  Entries with other names are never opened. *)
Theorem crawl_outcome (findall : string -> list string)
  (directory : result (list (string * result string))) :
  match directory with
  | Raise e => crawl findall directory = Raise e
  | Ok entries =>
      match first_failure entries with
      | Some e => crawl findall directory = Raise e
      | None => exists corpus, crawl findall directory = Ok corpus
      end
  end.
Proof.
  destruct directory as [entries|e]; [|reflexivity].
  destruct (first_failure entries) as [e|] eqn:Hf.
  - now apply crawl_failure.
  - eexists. now apply crawl_closed.
Qed.

(* ================================================================== *)
(** ** More on the transition model *)

(** X5. For a page without outbound links, or a name that is no page of
    the corpus, the transition model gives every page the base term
    [(1 - damping) / N] and nothing else, whatever the arithmetic; on the
    empty corpus it returns the empty distribution without dividing. *)
Theorem transition_model_dangling (A : Arith) (corpus : corpus_t)
  (page : string) (damping_factor : num A) :
  distinct (keys corpus) = true ->
  has_links corpus page = false ->
  transition_model A corpus page damping_factor
  = Ok (uniform (keys corpus)
          (div A (sub A (of_int A 1) damping_factor)
             (of_int A (len (keys corpus))))).
Proof.
  intros Hd Hl. apply distinct_NoDup in Hd.
  unfold transition_model, has_links in *.
  destruct corpus as [|[p0 l0] rest] eqn:Ec; [reflexivity|].
  rewrite <- Ec in *.
  assert (HN : len (keys corpus) <> 0%Z) by (rewrite Ec; apply len_nonzero).
  rewrite (fill_loop _ _ _ [] (true_div_Ok A _ _ HN)) by exact Hd.
  simpl app. cbn [bind].
  destruct (lookup corpus page) as [[|l ls]|]; [reflexivity | discriminate |
                                                 reflexivity].
Qed.

Lemma transition_model_dangling_witness :
  transition_model exact dangling_graph "B" DAMPING_exact
  = Ok (uniform (keys dangling_graph)
          (div exact (sub exact (of_int exact 1) DAMPING_exact)
             (of_int exact (len (keys dangling_graph))))).
Proof.
  apply (transition_model_dangling exact dangling_graph "B" DAMPING_exact).
  - reflexivity.
  - reflexivity.
Defined.

(** X6. In rational arithmetic, on a valid graph with at least one page,
    the values of the distribution sum to 1 when the page has outbound
    links and to [1 - damping] when it has none or is no page of the
    corpus. *)
Theorem transition_model_mass (corpus : corpus_t) (page : string)
  (damping : Q) :
  valid_graph corpus = true -> corpus <> [] ->
  exists pd,
    transition_model exact corpus page damping = Ok pd
    /\ total pd == if has_links corpus page then 1 else 1 - damping.
Proof.
  intros Hv Hne. exists (transition_closed exact corpus page damping).
  split; [now apply transition_model_closed | now apply transition_total].
Qed.

Lemma transition_model_mass_witness :
  exists pd,
    transition_model exact dangling_graph "A" DAMPING_exact = Ok pd
    /\ total pd == if has_links dangling_graph "A" then 1
                   else 1 - DAMPING_exact.
Proof.
  apply (transition_model_mass dangling_graph "A" DAMPING_exact).
  - reflexivity.
  - discriminate.
Defined.

(** The loop over the links stops with [KeyError] at the first link that
    is no key of the distribution. *)
Lemma bump_loop_missing (A : Arith) (g : string -> result (num A))
  (ks : list string) (d : dict (num A)) (l : string) :
  In l ks -> ~ In l (keys d) ->
  (forall k, exists x, g k = Ok x) ->
  for_each ks
    (fun k acc =>
       old <- getitem acc k ;; x <- g k ;; Ok (setitem acc k (add A old x)))
    d
  = Raise KeyError.
Proof.
  intros Hl Hm Hg. revert d Hm.
  induction ks as [|k ks IH]; intros d Hm; [contradiction|]. simpl.
  unfold getitem at 1. destruct (lookup d k) as [old|] eqn:E.
  - cbn [bind]. destruct (Hg k) as [x ->]. cbn [bind].
    assert (Hk : In k (keys d)) by (eapply lookup_Some_In; eassumption).
    apply IH.
    + destruct Hl as [->|Hl]; [contradiction | exact Hl].
    + now rewrite keys_setitem_present.
  - reflexivity.
Qed.

(** X7. On a corpus that breaks the graph invariant, the transition model
    raises [KeyError] for a page one of whose links is no page of the
    corpus. *)
Theorem transition_model_unknown_link (A : Arith) (corpus : corpus_t)
  (page link : string) (links : list string) (damping_factor : num A) :
  distinct (keys corpus) = true ->
  lookup corpus page = Some links ->
  In link links ->
  ~ In link (keys corpus) ->
  transition_model A corpus page damping_factor = Raise KeyError.
Proof.
  intros Hd Hl Hin Hout. apply distinct_NoDup in Hd.
  unfold transition_model.
  assert (HN : len (keys corpus) <> 0%Z).
  { apply lookup_Some_In in Hl. destruct (keys corpus); [contradiction|].
    apply len_nonzero. }
  rewrite (fill_loop _ _ _ [] (true_div_Ok A _ _ HN)) by exact Hd.
  simpl app. cbn [bind]. rewrite Hl.
  assert (HL : len links <> 0%Z)
    by (destruct links; [contradiction | apply len_nonzero]).
  destruct (Z.eqb_spec (len links) 0) as [E|_]; [contradiction|].
  unfold getitem. rewrite Hl. cbn [bind].
  apply (bump_loop_missing A (fun _ => true_div A damping_factor (len links))
           links _ link Hin).
  - now rewrite keys_uniform.
  - intros _. eexists. now apply true_div_Ok.
Qed.

Lemma transition_model_unknown_link_witness :
  transition_model exact [("A", ["B"; "C"]); ("B", [])] "A" DAMPING_exact
  = Raise KeyError.
Proof.
  apply (transition_model_unknown_link exact
           [("A", ["B"; "C"]); ("B", [])] "A" "C" ["B"; "C"] DAMPING_exact).
  - reflexivity.
  - reflexivity.
  - simpl. auto.
  - simpl. intros [H|[H|[]]]; discriminate H.
Defined.

Lemma inject_len_pos {X : Type} (x : X) (l : list X) :
  1 <= inject_Z (len (x :: l)).
Proof.
  unfold len. change 1 with (inject_Z 1). rewrite <- Zle_Qle.
  simpl List.length. lia.
Qed.

Lemma share_bounds (x : Q) (k : Q) :
  0 <= x -> 1 <= k -> 0 <= x / k /\ x / k <= x.
Proof.
  intros Hx Hk. assert (Hpos : 0 < k) by lra.
  split.
  - apply Qle_shift_div_l; [exact Hpos | lra].
  - apply Qle_shift_div_r; [exact Hpos|].
    rewrite <- (Qmult_1_r x) at 1.
    apply Qmult_le_compat_nonneg; split; lra.
Qed.

Lemma transition_closed_bounds (corpus : corpus_t) (page q : string)
  (damping : Q) :
  0 <= damping -> damping <= 1 -> In q (keys corpus) ->
  0 <= value_of (transition_closed exact corpus page damping) q
  /\ value_of (transition_closed exact corpus page damping) q <= 1.
Proof.
  intros H0 H1 Hq. rewrite (transition_value corpus page q damping Hq).
  assert (Hb : 0 <= 1 - damping) by lra.
  assert (HN : 1 <= inject_Z (len (keys corpus)))
    by (destruct (keys corpus); [contradiction | apply inject_len_pos]).
  destruct (share_bounds (1 - damping) _ Hb HN) as [Hb0 Hb1].
  destruct (contains (links_of corpus page) q) eqn:Ec.
  - assert (HL : 1 <= inject_Z (len (links_of corpus page)))
      by (destruct (links_of corpus page);
          [discriminate | apply inject_len_pos]).
    destruct (share_bounds damping _ H0 HL) as [Hs0 Hs1]. split; lra.
  - split; lra.
Qed.

(** X8. In rational arithmetic, on a valid graph and for a damping factor
    in [0, 1], every value of the distribution is a probability: it lies
    between 0 and 1. *)
Theorem transition_model_bounds (corpus : corpus_t) (page : string)
  (damping : Q) :
  valid_graph corpus = true -> 0 <= damping -> damping <= 1 ->
  exists pd,
    transition_model exact corpus page damping = Ok pd
    /\ forall q, In q (keys corpus) ->
         0 <= value_of pd q /\ value_of pd q <= 1.
Proof.
  intros Hv H0 H1. exists (transition_closed exact corpus page damping).
  split; [now apply transition_model_closed|].
  intros q Hq. now apply transition_closed_bounds.
Qed.

Lemma transition_model_bounds_witness :
  exists pd,
    transition_model exact hub_graph "A" DAMPING_exact = Ok pd
    /\ forall q, In q (keys hub_graph) ->
         0 <= value_of pd q /\ value_of pd q <= 1.
Proof.
  apply (transition_model_bounds hub_graph "A" DAMPING_exact).
  - reflexivity.
  - discriminate.
  - discriminate.
Defined.

(* ================================================================== *)
(** ** More on the sampling estimator *)

(** X9. A sample count of 1 or less, zero and negative counts included, is
    not rejected: once the first page is drawn, the loop does not run and
    the estimator returns 0 for every page of the corpus. *)
Theorem sample_pagerank_short_count (A : Arith) (R : Random A) (g g0 : gen R)
  (corpus : corpus_t) (d : num A) (n : Z) (x0 : string) :
  valid_graph corpus = true -> (n <= 1)%Z ->
  random_choice R g (keys corpus) = Ok (x0, g0) ->
  sample_pagerank R g corpus d n = Ok (uniform (keys corpus) (of_int A 0)).
Proof.
  intros Hv Hn Hc. unfold sample_pagerank.
  rewrite (zero_loop A corpus Hv). cbn [bind]. rewrite Hc. cbn [bind].
  replace (Z.to_nat (n - 1)) with O by lia. reflexivity.
Qed.

Lemma sample_pagerank_short_count_witness :
  sample_pagerank (scripted exact) [] two_cycle DAMPING_exact (-3)
  = Ok (uniform (keys two_cycle) (of_int exact 0)).
Proof.
  apply (sample_pagerank_short_count exact (scripted exact) [] []
           two_cycle DAMPING_exact (-3) "A").
  - reflexivity.
  - lia.
  - reflexivity.
Defined.

Lemma scripted_draw_member (g g' : list nat) (seq : list string)
  (x : string) :
  scripted_draw g seq = Ok (x, g') -> In x seq.
Proof.
  unfold scripted_draw.
  destruct (nth_error seq (Nat.modulo (hd O g) (List.length seq))) as [y|] eqn:E;
    [|discriminate].
  intros [= <- _]. eapply nth_error_In. eassumption.
Qed.

(** Along a walk through pages that all have links, every distribution
    met sums to 1. *)
Lemma surf_linked_mass (R : Random exact) (corpus : corpus_t) (damping : Q)
  (g : gen R) (x : string) (k : nat) (ds : list (dict Q)) :
  valid_graph corpus = true ->
  forallb (has_links corpus) (keys corpus) = true ->
  (forall g population weights y g',
     choices R g population weights = Ok (y, g') -> In y population) ->
  In x (keys corpus) ->
  surf R corpus damping g x k ds ->
  Forall (fun dist => total dist == 1) ds.
Proof.
  intros Hv Hall Hmem Hx Hs. rewrite forallb_forall in Hall.
  induction Hs as [g x | g g' x y dist k ds Ht Hc Hs IH]; constructor.
  - rewrite (transition_model_closed exact corpus x damping Hv) in Ht.
    injection Ht as <-. rewrite transition_total; auto.
    + now rewrite (Hall x Hx).
    + destruct corpus; [contradiction | discriminate].
  - apply IH. apply Hmem in Hc.
    rewrite (transition_model_closed exact corpus x damping Hv) in Ht.
    injection Ht as <-.
    now rewrite (keys_transition_closed exact) in Hc.
Qed.

(** X10. In rational arithmetic, on a valid graph in which every page has
    an outbound link, with draws that return elements of the sequences
    drawn from, the values returned for a sample count [n >= 1] sum to
    [(n - 1) / n]: the first sample is never credited. *)
Theorem sample_pagerank_mass (R : Random exact) (g g0 : gen R)
  (corpus : corpus_t) (damping : Q) (n : Z) (x0 : string)
  (ds : list (dict Q)) :
  valid_graph corpus = true ->
  forallb (has_links corpus) (keys corpus) = true ->
  (forall g seq y g', choice R g seq = Ok (y, g') -> In y seq) ->
  (forall g population weights y g',
     choices R g population weights = Ok (y, g') -> In y population) ->
  (1 <= n)%Z ->
  random_choice R g (keys corpus) = Ok (x0, g0) ->
  surf R corpus damping g0 x0 (Z.to_nat (n - 1)) ds ->
  exists r,
    sample_pagerank R g corpus damping n = Ok r
    /\ total r == (inject_Z n - 1) / inject_Z n.
Proof.
  intros Hv Hall Hm1 Hm2 Hn Hc Hs.
  apply (sample_pagerank_total_short R g g0 corpus damping n x0 ds); auto.
  apply (surf_linked_mass R corpus damping g0 x0 (Z.to_nat (n - 1)) ds);
    auto.
  unfold random_choice in Hc.
  destruct (keys corpus) as [|k ks] eqn:Ek; [discriminate|].
  rewrite <- Ek in *. eapply Hm1. eassumption.
Qed.

Lemma sample_pagerank_mass_witness :
  exists r,
    sample_pagerank (scripted exact) [1%nat; 0%nat] two_cycle DAMPING_exact 3
    = Ok r
    /\ total r == (inject_Z 3 - 1) / inject_Z 3.
Proof.
  apply (sample_pagerank_mass (scripted exact) [1%nat; 0%nat] [0%nat]
           two_cycle DAMPING_exact 3 "B"
           [[("A", 37 # 40); ("B", 3 # 40)];
            [("A", 3 # 40); ("B", 37 # 40)]]).
  - reflexivity.
  - reflexivity.
  - intros g seq y g'. apply scripted_draw_member.
  - intros g population weights y g'. apply scripted_draw_member.
  - lia.
  - reflexivity.
  - apply (surf_step (scripted exact) two_cycle DAMPING_exact
             [0%nat] [] "B" "A" [("A", 37 # 40); ("B", 3 # 40)]);
      [reflexivity | reflexivity |].
    apply (surf_step (scripted exact) two_cycle DAMPING_exact
             [] [] "A" "A" [("A", 3 # 40); ("B", 37 # 40)]);
      [reflexivity | reflexivity |].
    exact (surf_done (scripted exact) two_cycle DAMPING_exact [] "A").
Defined.

(* ================================================================== *)
(** ** More on the iterative estimator *)

(** X11. On every corpus with unique page names, valid or not, and for
    every damping factor and arithmetic, the iterative estimator raises
    nothing: a link to a name that is no page is never followed. *)
Theorem iterate_pagerank_never_raises (A : Arith) (corpus : corpus_t)
  (d : num A) (fuel : nat) (e : exn) :
  distinct (keys corpus) = true ->
  iterate_pagerank A fuel corpus d <> Some (Raise e).
Proof.
  intro Hd. apply distinct_NoDup in Hd. unfold iterate_pagerank.
  rewrite initial_pagerank_closed by exact Hd.
  apply iterate_loop_no_raise; [exact Hd | apply keys_uniform].
Qed.

Lemma iterate_pagerank_never_raises_witness :
  iterate_pagerank exact 5 [("A", ["B"; "C"]); ("B", [])] DAMPING_exact
  <> Some (Raise KeyError).
Proof.
  apply (iterate_pagerank_never_raises exact
           [("A", ["B"; "C"]); ("B", [])] DAMPING_exact 5 KeyError).
  reflexivity.
Defined.




Lemma sum_over_scale_l (f : string -> Q) (c : Q) (ks : list string) :
  sum_over (fun k => c * f k) ks == c * sum_over f ks.
Proof.
  rewrite (sum_over_ext _ (fun k => f k * c)) by (intros; ring).
  rewrite sum_over_scale. ring.
Qed.



(** The inflow of a page, column by column. *)
Lemma inflow_columns (corpus : corpus_t) (rank : dict Q) (p : string)
  (srcs : list string) :
  inflow_over corpus rank p srcs
  == sum_over (fun i => column corpus (value_of rank) i p) srcs.
Proof.
  unfold inflow_over, sum_over, column.
  induction srcs as [|i srcs IH]; cbn [filter map fold_right].
  - reflexivity.
  - destruct (contains (links_of corpus i) p); cbn [map fold_right];
      rewrite IH; ring.
Qed.









(* ================================================================== *)
(** ** Convergence of the iteration *)














(* ================================================================== *)
(** ** Ranks are probabilities *)

Lemma accumulated_bounds (ds : list (dict Q)) (n : Z) (p : string) :
  (1 <= n)%Z ->
  Forall (fun dist => 0 <= value_of dist p /\ value_of dist p <= 1) ds ->
  0 <= accumulated ds n p
  /\ accumulated ds n p
     <= inject_Z (Z.of_nat (List.length ds)) * (1 / inject_Z n).
Proof.
  intros Hn Hds.
  assert (Hinv : 0 <= 1 / inject_Z n).
  { unfold Qdiv. rewrite Qmult_1_l. apply Qinv_le_0_compat.
    change 0 with (inject_Z 0). rewrite <- Zle_Qle. lia. }
  unfold accumulated. induction Hds as [|dist ds [H0 H1] _ IH].
  - cbn [map fold_right List.length].
    change (inject_Z (Z.of_nat 0)) with 0. split; lra.
  - cbn [map fold_right List.length].
    rewrite Nat2Z.inj_succ, <- Z.add_1_l, inject_Z_plus.
    change (inject_Z 1) with 1.
    assert (0 <= value_of dist p * (1 / inject_Z n))
      by now apply Qmult_le_0_compat.
    assert (value_of dist p * (1 / inject_Z n) <= 1 * (1 / inject_Z n))
      by now apply Qmult_le_compat_r.
    destruct IH as [IH0 IH1]. split; lra.
Qed.

(** X15. In rational arithmetic, on a valid graph and for a damping factor
    in [0, 1], every value the sampling estimator returns for a sample
    count [n >= 1] lies between 0 and [(n - 1) / n], so below 1. *)
Theorem sample_pagerank_bounds (R : Random exact) (g g0 : gen R)
  (corpus : corpus_t) (damping : Q) (n : Z) (x0 : string)
  (ds : list (dict Q)) :
  valid_graph corpus = true -> 0 <= damping -> damping <= 1 ->
  (1 <= n)%Z ->
  random_choice R g (keys corpus) = Ok (x0, g0) ->
  surf R corpus damping g0 x0 (Z.to_nat (n - 1)) ds ->
  exists r,
    sample_pagerank R g corpus damping n = Ok r
    /\ forall p, In p (keys corpus) ->
         0 <= value_of r p
         /\ value_of r p <= (inject_Z n - 1) / inject_Z n.
Proof.
  intros Hv H0 H1 Hn Hc Hs.
  destruct (sample_loop R corpus damping n Hv _ _ _ _ Hs
              (uniform (keys corpus) (of_int exact 0)))
    as (acc & x' & g' & Hrun & Hk & Hval).
  - destruct (Z.to_nat (n - 1)) eqn:E; [now left|right; lia].
  - apply keys_uniform.
  - exists acc. split.
    + unfold sample_pagerank.
      rewrite (zero_loop exact corpus Hv). cbn [bind].
      rewrite Hc. cbn [bind]. exact_ops. now rewrite Hrun.
    + intros p Hp. rewrite (Hval p Hp).
      assert (Hz : value_of (uniform (keys corpus) (of_int exact 0)) p == 0).
      { unfold value_of. rewrite lookup_uniform.
        apply contains_In in Hp. now rewrite Hp. }
      rewrite Hz.
      assert (Hds : Forall (fun dist => 0 <= value_of dist p
                                        /\ value_of dist p <= 1) ds).
      { clear -Hs Hv H0 H1 Hp.
        induction Hs as [g x | g g' x y dist k ds Ht Hc Hs IH];
          constructor; [|exact IH].
        rewrite (transition_model_closed exact corpus x damping Hv) in Ht.
        injection Ht as <-. now apply transition_closed_bounds. }
      destruct (accumulated_bounds ds n p Hn Hds) as [Ha0 Ha1].
      assert (Hlen : List.length ds = Z.to_nat (n - 1))
        by (clear -Hs; induction Hs; simpl; congruence).
      rewrite Hlen, Z2Nat.id in Ha1 by lia.
      unfold Z.sub in Ha1. rewrite inject_Z_plus, inject_Z_opp in Ha1.
      change (inject_Z 1) with 1 in Ha1.
      split; [lra|].
      setoid_replace ((inject_Z n - 1) / inject_Z n)
        with ((inject_Z n + - (1)) * (1 / inject_Z n))
        by (unfold Qdiv, Qminus; ring).
      lra.
Qed.

Lemma sample_pagerank_bounds_witness :
  exists r,
    sample_pagerank (scripted exact) [1%nat; 0%nat] two_cycle DAMPING_exact 3
    = Ok r
    /\ forall p, In p (keys two_cycle) ->
         0 <= value_of r p
         /\ value_of r p <= (inject_Z 3 - 1) / inject_Z 3.
Proof.
  apply (sample_pagerank_bounds (scripted exact) [1%nat; 0%nat] [0%nat]
           two_cycle DAMPING_exact 3 "B"
           [[("A", 37 # 40); ("B", 3 # 40)];
            [("A", 3 # 40); ("B", 37 # 40)]]).
  - reflexivity.
  - discriminate.
  - discriminate.
  - lia.
  - reflexivity.
  - apply (surf_step (scripted exact) two_cycle DAMPING_exact
             [0%nat] [] "B" "A" [("A", 37 # 40); ("B", 3 # 40)]);
      [reflexivity | reflexivity |].
    apply (surf_step (scripted exact) two_cycle DAMPING_exact
             [] [] "A" "A" [("A", 3 # 40); ("B", 37 # 40)]);
      [reflexivity | reflexivity |].
    exact (surf_done (scripted exact) two_cycle DAMPING_exact [] "A").
Defined.


(** X17. In rational arithmetic, on a valid graph, one pass of the
    iterative estimator agrees with the transition model: the new rank of
    a page is the sum over the pages [i] of [rank[i]] times the probability
    the transition model of [i] gives the page, plus the base term times
    the mass [1 - sum of the ranks] that is missing. *)
Theorem new_pagerank_transition (corpus : corpus_t) (damping : Q)
  (rank : dict Q) :
  valid_graph corpus = true -> keys rank = keys corpus ->
  exists nr tm,
    new_pagerank exact corpus damping rank = Ok nr
    /\ (forall i, transition_model exact corpus i damping = Ok (tm i))
    /\ forall p, In p (keys corpus) ->
         value_of nr p
         == sum_over (fun i => value_of rank i * value_of (tm i) p)
              (keys corpus)
            + (1 - damping) / inject_Z (len (keys corpus)) * (1 - total rank).
Proof.
  intros Hv Hk. pose proof (valid_graph_keys corpus Hv) as Hnd.
  exists (new_closed exact corpus damping rank).
  exists (fun i => transition_closed exact corpus i damping).
  split.
  { apply new_pagerank_closed; [exact Hnd|].
    intros i Hi. exact_ops. now rewrite Hk. }
  split.
  { intro i. now apply transition_model_closed. }
  intros p Hp. rewrite (value_of_new_closed corpus damping rank p Hp).
  unfold recurrence, inflow. rewrite inflow_columns.
  rewrite (sum_over_ext
             (fun i => value_of rank i
                       * value_of (transition_closed exact corpus i damping) p)
             (fun i => value_of rank i
                       * ((1 - damping) / inject_Z (len (keys corpus)))
                       + damping * column corpus (value_of rank) i p)).
  - rewrite sum_over_plus, sum_over_scale, sum_over_scale_l.
    rewrite total_reads, Hk by now rewrite Hk. ring.
  - intros i _. rewrite (transition_value corpus i p damping Hp).
    unfold column. destruct (contains (links_of corpus i) p);
      unfold Qdiv; ring.
Qed.

Lemma new_pagerank_transition_witness :
  exists nr tm,
    new_pagerank exact dangling_graph DAMPING_exact
      [("A", 1 # 2); ("B", 1 # 2)] = Ok nr
    /\ (forall i,
          transition_model exact dangling_graph i DAMPING_exact = Ok (tm i))
    /\ forall p, In p (keys dangling_graph) ->
         value_of nr p
         == sum_over (fun i => value_of [("A", 1 # 2); ("B", 1 # 2)] i
                               * value_of (tm i) p)
              (keys dangling_graph)
            + (1 - DAMPING_exact) / inject_Z (len (keys dangling_graph))
              * (1 - total [("A", 1 # 2); ("B", 1 # 2)]).
Proof.
  apply (new_pagerank_transition dangling_graph DAMPING_exact
           [("A", 1 # 2); ("B", 1 # 2)]).
  - reflexivity.
  - reflexivity.
Defined.

(* ================================================================== *)
(** ** What the iteration returns *)







